(** * Golden model of the Ising energy accumulator

    A shallow embedding of [hw/unit_tests/compute_unit/high_level_hamiltonian.py]:
    the Hamiltonian [H = sigma^T * J * sigma] over spins [2*sigma - 1], the
    energy difference of two configurations, the flip decomposition
    ([generate_sigma_f], [generate_sigma_c], [generate_sigma_r]) and the
    column-wise accumulation ([calculate_expected_output],
    [energy_from_columns_full], [verify_iterative_vs_hamiltonian]).

    numpy arrays are lists (a 2-D array is the list of its rows), Python
    exceptions are the [Err] branch of a small error monad, [for] loops over
    [range] are monadic folds, and the one in-place update of the source
    ([sigma_c[i] = ...]) is a list insert guarded by the bounds check that
    numpy performs. float64 arrays are lists of binary64 floats with their
    IEEE arithmetic, int64 arrays lists of integers modulo [2^64]. *)

From Stdlib Require Import ZArith Zmod Ring Lia.
From Stdlib Require Import Floats.PrimFloat Floats.SpecFloat Floats.FloatOps.
From stdpp Require Import base list.

Local Open Scope Z_scope.
Set Warnings "-inexact-float".

(** ** Exceptions and the error monad *)

(** The exceptions the modelled code can raise: numpy's [ValueError] for
    operands whose shapes do not fit ([@], [logical_xor]) and Python's for
    [int(nan)]; [IndexError] for an index outside an array; [OverflowError]
    for [int(inf)]. *)
Inductive exn : Type :=
| ValueError
| IndexError
| OverflowError.

Inductive result (T : Type) : Type :=
| Ok (value : T)
| Err (e : exn).
Arguments Ok {T} value.
Arguments Err {T} e.

Definition bind {T U : Type} (r : result T) (k : T → result U) : result U :=
  match r with
  | Ok x => k x
  | Err e => Err e
  end.

Notation "x <- r ;; k" := (bind r (fun x => k))
  (at level 100, r at next level, right associativity,
   format "'[v' x  <-  r  ;;  '/' k ']'").

Definition raises {T : Type} (r : result T) (e : exn) : Prop := r = Err e.

(** ** Array element types *)

(** The source is polymorphic in the numpy dtype of its arrays. An element
    type has the arithmetic of [*], [+], [-] on array elements, Python's
    truth value of an element ([x != 0]) and Python's [int(x)], which can
    raise. Arrays of mixed dtype are promoted by numpy to a common one,
    which is the element type here. No law of arithmetic is part of the
    interface: float64 has none. *)
Class Dtype (A : Type) : Type := {
  zero : A;
  one : A;
  add : A → A → A;
  mul : A → A → A;
  sub : A → A → A;
  opp : A → A;
  nonzero : A → bool;
  to_int : A → result Z;
  nonzero_zero : nonzero zero = false;
  one_nonzero : nonzero one = true
}.

(** An element type whose arithmetic is exact: a commutative ring, and
    [int] never raises. [int_value] is the integer [int] returns. *)
Class ExactDtype (A : Type) `{Dtype A} : Type := {
  int_value : A → Z;
  dtype_ring : ring_theory zero one add mul sub opp eq;
  to_int_exact : ∀ x, to_int x = Ok (int_value x)
}.

(** Python integers, as held by the integer arrays of the flip masks and
    encodings (whose entries are 0, 1 and -1) and by arrays of dtype
    [object]. *)
#[global] Instance int_dtype : Dtype Z := {|
  zero := 0; one := 1;
  add := Z.add; mul := Z.mul; sub := Z.sub; opp := Z.opp;
  nonzero := fun x => negb (x =? 0);
  to_int := fun x => Ok x;
  nonzero_zero := eq_refl;
  one_nonzero := eq_refl
|}.

#[global] Instance int_exact : ExactDtype Z := {|
  int_value := fun x => x;
  dtype_ring := Zth;
  to_int_exact := fun x => eq_refl
|}.

(** int64: arithmetic modulo [2^64], and [int] reads the signed value. *)
Definition int64 : Type := Zmod (2 ^ 64).

#[global, refine] Instance int64_dtype : Dtype int64 := {|
  zero := Zmod.zero; one := Zmod.one;
  add := Zmod.add; mul := Zmod.mul; sub := Zmod.sub; opp := Zmod.opp;
  nonzero := fun x => negb (Zmod.eqb x Zmod.zero);
  to_int := fun x => Ok (Zmod.signed x)
|}.
Proof. all: reflexivity. Defined.

#[global] Instance int64_exact : ExactDtype int64 := {|
  int_value := Zmod.signed;
  dtype_ring := Zmod.ring_theory (2 ^ 64);
  to_int_exact := fun x => eq_refl
|}.

Definition i64 (z : Z) : int64 := Zmod.of_Z (2 ^ 64) z.

(** float64: IEEE binary64. [int] truncates a finite value toward zero and
    raises [OverflowError] on an infinity and [ValueError] on a NaN. *)
Definition float_to_int (x : float) : result Z :=
  match Prim2SF x with
  | S754_zero _ => Ok 0
  | S754_finite s m e =>
      let v := if 0 <=? e then Z.shiftl (Zpos m) e else Z.shiftr (Zpos m) (- e) in
      Ok (if s then - v else v)
  | S754_infinity _ => Err OverflowError
  | S754_nan => Err ValueError
  end.

#[global, refine] Instance float64_dtype : Dtype float := {|
  zero := 0%float; one := 1%float;
  add := PrimFloat.add; mul := PrimFloat.mul; sub := PrimFloat.sub;
  opp := PrimFloat.opp;
  nonzero := fun x => negb (PrimFloat.eqb x 0%float);
  to_int := float_to_int
|}.
Proof. all: reflexivity. Defined.

(** ** numpy and Python primitives *)

(** [range(n)]: empty when [n <= 0]. *)
Definition range (n : Z) : list nat := seq 0 (Z.to_nat n).

(** A [for] loop: the body is run on each index in turn, threading the
    loop-carried state, and the first exception leaves the loop. *)
Fixpoint for_loop {S : Type} (idx : list nat) (body : nat → S → result S)
    (s : S) : result S :=
  match idx with
  | [] => Ok s
  | i :: rest => s' <- body i s ;; for_loop rest body s'
  end.

(** [a[i]] for an index that is not negative. *)
Definition getitem {T : Type} (a : list T) (i : nat) : result T :=
  match a !! i with
  | Some x => Ok x
  | None => Err IndexError
  end.

(** [J[i, j]] on a 2-D array. *)
Definition getitem2 {T : Type} (J : list (list T)) (i j : nat) : result T :=
  row <- getitem J i ;; getitem row j.

(** [a[i] = v]: numpy checks the index, the list insert alone would not. *)
Definition setitem {T : Type} (a : list T) (i : nat) (v : T) : result (list T) :=
  if decide (i < length a)%nat then Ok (<[i:=v]> a) else Err IndexError.

(** Elementwise binary operation on two 1-D arrays, with numpy's
    broadcasting of a length-1 operand. *)
Definition broadcast2 {B C D : Type} (f : B → C → D) (a : list B) (b : list C)
    : result (list D) :=
  if decide (length a = length b) then Ok (zip_with f a b)
  else match a, b with
       | [x], _ => Ok (map (f x) b)
       | _, [y] => Ok (map (fun x => f x y) a)
       | _, _ => Err ValueError
       end.

(** [.astype(int)] on a boolean array. *)
Definition astype_int (a : list bool) : list Z := map Z.b2z a.

(** [np.zeros(n, dtype=int)]. *)
Definition np_zeros_int (n : nat) : list Z := replicate n 0.

(** [np.logical_xor] and [np.logical_not]: an element counts as true when
    it is not zero. *)
Definition np_logical_xor {B C : Type} `{Dtype B} `{Dtype C}
    (a : list B) (b : list C) : result (list bool) :=
  broadcast2 (fun x y => xorb (nonzero x) (nonzero y)) a b.

Definition np_logical_not {B : Type} `{Dtype B} (a : list B) : list bool :=
  map (fun x => negb (nonzero x)) a.

(** Reading an array where the index is known to be in range. *)
Definition at1 {B : Type} `{Dtype B} (a : list B) (i : nat) : B :=
  default zero (a !! i).

(** Every element of a configuration is the bit 0 or the bit 1. *)
Definition is_binary {B : Type} `{Dtype B} (sigma : list B) : Prop :=
  Forall (fun b => b = zero ∨ b = one) sigma.

(** ** The model *)

Section Model.
Context {A : Type} `{DA : Dtype A}.

(** A 2-D array is the list of its rows. *)
Local Abbreviation matrix := (list (list A)).

Definition two : A := add one one.

(** Shape of a 2-D array held as its list of rows. *)
Definition nrows (M : matrix) : nat := length M.
Definition ncols (M : matrix) : nat :=
  match M with
  | [] => 0%nat
  | r :: _ => length r
  end.

(** *** The matrix product [@] *)

Fixpoint dot (u v : list A) : A :=
  match u, v with
  | x :: u', y :: v' => add (mul x y) (dot u' v')
  | _, _ => zero
  end.

Definition column (j : nat) (M : matrix) : list A :=
  map (fun r => default zero (r !! j)) M.

(** [v @ M] for 1-D [v] and 2-D [M]: entry [j] is [sum_i v[i] * M[i, j]];
    the length of [v] must be the number of rows of [M]. *)
Definition matmul_vm (v : list A) (M : matrix) : result (list A) :=
  if decide (length v = nrows M)
  then Ok (map (fun j => dot v (column j M)) (seq 0 (ncols M)))
  else Err ValueError.

(** [u @ v] for 1-D [u] and [v]: the inner product, lengths must agree. *)
Definition matmul_vv (u v : list A) : result A :=
  if decide (length u = length v) then Ok (dot u v) else Err ValueError.

(** *** The functions of the source *)

(** [spins = 2 * sigma - 1]. *)
Definition spins (sigma : list A) : list A :=
  map (fun b => sub (mul two b) one) sigma.

Definition calculate_hamiltonian (sigma : list A) (J : matrix) : result Z :=
  let spins := spins sigma in
  t <- matmul_vm spins J ;;
  energy <- matmul_vv t spins ;;
  to_int energy.

Definition calculate_energy_difference (sigma_old sigma_new : list A)
    (J : matrix) : result Z :=
  energy_old <- calculate_hamiltonian sigma_old J ;;
  energy_new <- calculate_hamiltonian sigma_new J ;;
  Ok (energy_new - energy_old).

Definition generate_sigma_f (sigma_previous sigma_new : list A)
    : result (list Z * list Z) :=
  x <- np_logical_xor sigma_previous sigma_new ;;
  let sigma_f := astype_int x in
  let sigma_f_inv := astype_int (np_logical_not sigma_f) in
  Ok (sigma_f, sigma_f_inv).

Definition generate_sigma_c (sigma_f : list Z) (sigma_new : list A)
    (vector_size : Z) : result (list Z) :=
  let sigma_c := np_zeros_int (length sigma_f) in
  for_loop (range vector_size) (fun i sigma_c =>
    f <- getitem sigma_f i ;;
    if nonzero f then
      n <- getitem sigma_new i ;;
      setitem sigma_c i (if nonzero n then 1 else -1)
    else
      setitem sigma_c i 0) sigma_c.

Definition generate_sigma_r (sigma_f_inv : list Z) (sigma_new : list A)
    (vector_size : Z) : result (list Z) :=
  let sigma_r := np_zeros_int (length sigma_f_inv) in
  for_loop (range vector_size) (fun i sigma_r =>
    f <- getitem sigma_f_inv i ;;
    if nonzero f then
      n <- getitem sigma_new i ;;
      setitem sigma_r i (if nonzero n then 1 else -1)
    else
      setitem sigma_r i 0) sigma_r.

Definition calculate_expected_output (sigma_r sigma_c : list A) (J : matrix)
    (col_per_cc vector_size : Z) : result Z :=
  total_sum <- for_loop (range col_per_cc) (fun col total_sum =>
    column_sum <- for_loop (range vector_size) (fun row column_sum =>
      r <- getitem sigma_r row ;;
      j <- getitem2 J col row ;;
      Ok (add column_sum (mul r j))) zero ;;
    c <- getitem sigma_c col ;;
    Ok (add total_sum (mul c column_sum))) zero ;;
  to_int total_sum.

Definition energy_from_columns_full (sigma_bits : list A) (J : matrix)
    (vector_size : Z) : result Z :=
  total_energy <- for_loop (range vector_size) (fun col total_energy =>
    sigma_c_val <- getitem sigma_bits col ;;
    column_contribution <- for_loop (range vector_size)
      (fun row column_contribution =>
        sigma_r_val <- getitem sigma_bits row ;;
        j <- getitem2 J col row ;;
        Ok (add column_contribution (mul sigma_r_val j))) zero ;;
    Ok (add total_energy (mul sigma_c_val column_contribution))) zero ;;
  to_int total_energy.

Definition verify_iterative_vs_hamiltonian (sigma_old sigma_new : list A)
    (J : matrix) (vector_size : Z) : result (bool * Z * Z) :=
  let spins_old := spins sigma_old in
  let spins_new := spins sigma_new in
  energy_new_cols <- energy_from_columns_full spins_new J vector_size ;;
  energy_old_cols <- energy_from_columns_full spins_old J vector_size ;;
  let iterative_result := energy_new_cols - energy_old_cols in
  hamiltonian_result <- calculate_energy_difference sigma_old sigma_new J ;;
  let match_ := (iterative_result =? hamiltonian_result) in
  Ok (match_, iterative_result, hamiltonian_result).

(** *** Shapes and indexed sums *)

(** [J] is a 2-D array of shape [(n, n)]. *)
Definition is_square (n : nat) (J : matrix) : Prop :=
  length J = n ∧ Forall (fun r => length r = n) J.

(** Reading a 2-D array where the indices are known to be in range. *)
Definition at2 (J : matrix) (i j : nat) : A :=
  default zero (J !! i ≫= fun r => r !! j).

(** [sum_upto n f] is [((0 + f 0) + f 1) + ... + f (n-1)], in the order a
    loop over [range(n)] accumulates it. *)
Fixpoint sum_upto (n : nat) (f : nat → A) : A :=
  match n with
  | O => zero
  | S m => add (sum_upto m f) (f m)
  end.

(** The quadratic form [sum_i sum_j s[i] * J[i, j] * s[j]]. *)
Definition bilinear (n : nat) (s : list A) (J : matrix) : A :=
  sum_upto n (fun i => sum_upto n (fun j => mul (mul (at1 s i) (at2 J i j)) (at1 s j))).

(** The value the two nested loops accumulate over the first [k] columns
    and rows. *)
Definition columns_sum (k : nat) (sr sc : list A) (J : matrix) : A :=
  sum_upto k (fun col =>
    mul (at1 sc col) (sum_upto k (fun row => mul (at1 sr row) (at2 J col row)))).

(** Whether position [i] differs, as truth values, between two
    configurations. *)
Definition flipped (sigma_previous sigma_new : list A) (i : nat) : bool :=
  xorb (nonzero (at1 sigma_previous i)) (nonzero (at1 sigma_new i)).

(** Entry [i] of the ternary encoding after [k] iterations of the loop of
    [generate_sigma_c] and [generate_sigma_r]: the sign of [sigma_new[i]]
    where the mask is set and [i < k], and 0 elsewhere. *)
Definition encoded (mask : list Z) (sigma_new : list A) (k i : nat) : Z :=
  if decide (i < k)%nat then
    if nonzero (at1 mask i) then (if nonzero (at1 sigma_new i) then 1 else -1)
    else 0
  else 0.

(** The state of the encoding loop after [j] iterations. *)
Definition encode_inv (n : nat) (mask : list Z) (sigma_new : list A)
    (j : nat) (acc : list Z) : Prop :=
  length acc = n ∧ ∀ i, (i < n)%nat → acc !! i = Some (encoded mask sigma_new j i).

(** The reading-back of the specification's round trip, which the source
    does not define: the configuration recovered from the flip mask and the
    signs of the two encodings. At a flipped position the bit is 1 exactly
    when the column encoding is +1, elsewhere exactly when the row encoding
    is +1. *)
Definition reconstruct (sigma_f sigma_c sigma_r : list Z) : list A :=
  zip_with (fun f cr => if nonzero f then (if decide (cr.1 = 1) then one else zero)
                        else (if decide (cr.2 = 1) then one else zero))
    sigma_f (zip sigma_c sigma_r).

(** The configuration with every nonzero element replaced by 1. *)
Definition clamp (sigma : list A) : list A :=
  map (fun b => if nonzero b then one else zero) sigma.

End Model.

(** *** The float64 arrays the source builds *)

(** [np.ones(n)], [np.zeros(n)] and [np.ones((n, m))] are float64 arrays. *)
Definition np_ones (n : nat) : list float := replicate n 1%float.
Definition np_zeros (n : nat) : list float := replicate n 0%float.
Definition np_ones2 (n m : nat) : list (list float) := replicate n (np_ones m).

(** [np.ones((size, size)) * const_val]: a float64 array whatever the
    constant, which Python converts to a float first. *)
Definition generate_constant_j_matrix (size : nat) (const_val : float)
    : list (list float) :=
  map (map (fun x => PrimFloat.mul x const_val)) (np_ones2 size size).

(** The products with [np.ones(size)] and [np.zeros(size)] are float64
    products; [J] is the matrix as float64. *)
Definition verify_global_flip_symmetry (J : list (list float)) : result bool :=
  let size := nrows J in
  let sigma_all_ones := np_ones size in
  let sigma_all_zeros := np_zeros size in
  energy_ones <- calculate_hamiltonian sigma_all_ones J ;;
  energy_zeros <- calculate_hamiltonian sigma_all_zeros J ;;
  let delta := energy_ones - energy_zeros in
  Ok (delta =? 0).

(** *** Fixtures of the source's self-test *)

(** The configurations of its test 6 and the coupling matrix of its
    test 7. *)
Definition sigma_prev_test : list Z := [1; 1; 0; 1; 0; 0; 1; 0].
Definition sigma_new_test : list Z := [1; 0; 1; 1; 0; 1; 0; 0].
Definition J_small : list (list float) := generate_constant_j_matrix 8 2.

(** Closing tactics for concrete configurations and matrices. *)
Ltac binary_config :=
  repeat (constructor; [first [left; reflexivity | right; reflexivity]|]);
  constructor.

Ltac square_matrix := split; [reflexivity | repeat constructor].

(** ** Facts about loops and array reads *)

Section ArrayFacts.
Context {B : Type} `{DB : Dtype B}.

(** ** Loops *)

Lemma for_loop_app {S : Type} (l1 l2 : list nat)
    (body : nat → S → result S) s :
  for_loop (l1 ++ l2) body s = (s' <- for_loop l1 body s ;; for_loop l2 body s').
Proof.
  revert s. induction l1 as [|i l1 IH]; intros s; simpl; [reflexivity|].
  destruct (body i s); simpl; [apply IH | reflexivity].
Qed.

(** Invariant rule: an invariant indexed by the number of completed
    iterations, kept by every iteration, holds of the final state, and the
    loop does not raise. *)
Lemma for_loop_inv {S : Type} (Inv : nat → S → Prop) k
    (body : nat → S → result S) s :
  Inv O s →
  (∀ i acc, (i < k)%nat → Inv i acc →
     ∃ acc', body i acc = Ok acc' ∧ Inv (Datatypes.S i) acc') →
  ∃ s', for_loop (seq 0 k) body s = Ok s' ∧ Inv k s'.
Proof.
  intros H0 Hstep. induction k as [|k IH]; [exists s; split; [reflexivity | exact H0]|].
  destruct IH as (s1 & E1 & I1); [intros; apply Hstep; [lia | assumption]|].
  destruct (Hstep k s1 ltac:(lia) I1) as (s2 & E2 & I2).
  exists s2. rewrite seq_S, for_loop_app, E1. simpl. rewrite E2.
  split; [reflexivity | exact I2].
Qed.

(** A loop stops with the exception of the first failing iteration. *)
Lemma for_loop_raises {S : Type} (Inv : nat → S → Prop) n k
    (body : nat → S → result S) s e :
  (k < n)%nat →
  Inv O s →
  (∀ i acc, (i < k)%nat → Inv i acc →
     ∃ acc', body i acc = Ok acc' ∧ Inv (Datatypes.S i) acc') →
  (∀ acc, Inv k acc → body k acc = Err e) →
  for_loop (seq 0 n) body s = Err e.
Proof.
  intros Hk H0 Hok Hfail.
  replace n with (k + (1 + (n - k - 1)))%nat by lia.
  rewrite seq_app, for_loop_app.
  destruct (for_loop_inv Inv k body s H0 Hok) as (s' & -> & I').
  simpl. rewrite Hfail by exact I'. reflexivity.
Qed.

Lemma getitem_at1 (a : list B) i : (i < length a)%nat → getitem a i = Ok (at1 a i).
Proof.
  intros Hi. unfold getitem, at1.
  destruct (lookup_lt_is_Some_2 a i Hi) as [x ->]. reflexivity.
Qed.

Lemma getitem_out {T : Type} (a : list T) i :
  (length a ≤ i)%nat → getitem a i = Err IndexError.
Proof. intros Hi. unfold getitem. rewrite lookup_ge_None_2 by lia. reflexivity. Qed.

Lemma setitem_ok {T : Type} (a : list T) i v :
  (i < length a)%nat → setitem a i v = Ok (<[i:=v]> a).
Proof. intros Hi. unfold setitem. rewrite decide_True by exact Hi. reflexivity. Qed.

Lemma at1_lookup (a : list B) i x : a !! i = Some x → at1 a i = x.
Proof. intros E. unfold at1. rewrite E. reflexivity. Qed.

Lemma lookup_at1 (a : list B) i : (i < length a)%nat → a !! i = Some (at1 a i).
Proof.
  intros Hi. destruct (lookup_lt_is_Some_2 a i Hi) as [x E].
  rewrite (at1_lookup _ _ _ E). exact E.
Qed.

End ArrayFacts.

(** ** Facts about the quadratic form and the accumulation *)

Section Facts.
Context {A : Type} `{DA : Dtype A} `{EA : !ExactDtype A}.
Local Abbreviation matrix := (list (list A)).

Add Ring dtype_ring_inst : dtype_ring.

Lemma sum_upto_ext n f g :
  (∀ i, (i < n)%nat → f i = g i) → sum_upto n f = sum_upto n g.
Proof.
  induction n as [|n IH]; intros E; simpl; [reflexivity|].
  rewrite IH by (intros; apply E; lia). rewrite E by lia. reflexivity.
Qed.

Lemma sum_upto_head n f :
  sum_upto (S n) f = add (f O) (sum_upto n (fun i => f (S i))).
Proof.
  induction n as [|n IH]; simpl in *; [ring|]. rewrite IH. ring.
Qed.

Lemma sum_upto_add n f g :
  sum_upto n (fun i => add (f i) (g i)) = add (sum_upto n f) (sum_upto n g).
Proof. induction n as [|n IH]; simpl; [ring|]. rewrite IH. ring. Qed.

Lemma sum_upto_zero n : sum_upto n (fun _ => zero) = zero.
Proof. induction n as [|n IH]; simpl; [reflexivity|]. rewrite IH. ring. Qed.

Lemma sum_upto_mul_l n x f :
  mul x (sum_upto n f) = sum_upto n (fun i => mul x (f i)).
Proof. induction n as [|n IH]; simpl; [ring|]. rewrite <- IH. ring. Qed.

Lemma sum_upto_mul_r n x f :
  mul (sum_upto n f) x = sum_upto n (fun i => mul (f i) x).
Proof. induction n as [|n IH]; simpl; [ring|]. rewrite <- IH. ring. Qed.

(** Exchange of the two summations. *)
Lemma sum_upto_swap n m (f : nat → nat → A) :
  sum_upto n (fun i => sum_upto m (fun j => f i j))
  = sum_upto m (fun j => sum_upto n (fun i => f i j)).
Proof.
  induction n as [|n IH]; simpl.
  - symmetry. apply sum_upto_zero.
  - rewrite IH. symmetry. apply sum_upto_add.
Qed.

(** ** Array reads *)

(** A loop whose body adds [f i] to the accumulator computes [sum_upto]. *)
Lemma for_loop_sum n (body : nat → A → result A) f :
  (∀ i acc, (i < n)%nat → body i acc = Ok (add acc (f i))) →
  for_loop (seq 0 n) body zero = Ok (sum_upto n f).
Proof.
  induction n as [|n IH]; intros Hb; [reflexivity|].
  rewrite seq_S, for_loop_app, IH by (intros; apply Hb; lia).
  simpl. rewrite Hb by lia. reflexivity.
Qed.


Lemma is_square_row n (J : matrix) i (r : list A) :
  is_square n J → J !! i = Some r → length r = n.
Proof.
  intros [_ HF] Hr. rewrite Forall_forall in HF. apply HF.
  apply list_elem_of_lookup. eauto.
Qed.

Lemma getitem2_at2 n (J : matrix) i j :
  is_square n J → (i < n)%nat → (j < n)%nat → getitem2 J i j = Ok (at2 J i j).
Proof.
  intros HJ Hi Hj. unfold getitem2, getitem, at2.
  destruct (lookup_lt_is_Some_2 J i) as [r Hr]; [destruct HJ; lia|].
  rewrite Hr. simpl.
  pose proof (is_square_row _ _ _ _ HJ Hr) as Hlen.
  destruct (lookup_lt_is_Some_2 r j) as [x Hx]; [lia|].
  rewrite Hx. reflexivity.
Qed.

Lemma is_square_ncols n (J : matrix) : is_square n J → ncols J = n.
Proof.
  intros [Hl HF]. destruct J as [|r J]; simpl in *; [exact Hl|].
  inversion HF; subst. assumption.
Qed.

Lemma at1_column n (J : matrix) i j :
  is_square n J → (i < n)%nat → at1 (column j J) i = at2 J i j.
Proof.
  intros HJ Hi. unfold at1, at2, column.
  rewrite list_lookup_fmap.
  destruct (lookup_lt_is_Some_2 J i) as [r Hr]; [destruct HJ; lia|].
  rewrite Hr. simpl. destruct (r !! j); reflexivity.
Qed.

(** ** The inner product as an indexed sum *)

Lemma dot_sum_upto (u v : list A) n :
  length u = n → length v = n →
  dot u v = sum_upto n (fun i => mul (at1 u i) (at1 v i)).
Proof.
  revert v n. induction u as [|x u IH]; intros v n Hu Hv; simpl in Hu; subst n.
  - reflexivity.
  - destruct v as [|y v]; [discriminate|]. simpl in Hv.
    rewrite sum_upto_head. simpl. f_equal.
    apply IH; [reflexivity | lia].
Qed.

(** ** The Hamiltonian as the quadratic form *)

Lemma length_spins (sigma : list A) : length (spins sigma) = length sigma.
Proof. apply length_map. Qed.

Lemma matmul_vm_square n (v : list A) (J : matrix) :
  is_square n J → length v = n →
  ∃ t, matmul_vm v J = Ok t ∧ length t = n ∧
       ∀ j, (j < n)%nat → at1 t j = sum_upto n (fun i => mul (at1 v i) (at2 J i j)).
Proof.
  intros HJ Hv. unfold matmul_vm, nrows.
  rewrite decide_True by (destruct HJ; congruence).
  rewrite (is_square_ncols _ _ HJ).
  eexists; split; [reflexivity|]. split.
  - rewrite length_map, length_seq. reflexivity.
  - intros j Hj. unfold at1 at 1.
    rewrite list_lookup_fmap, lookup_seq_lt by exact Hj. simpl.
    rewrite (dot_sum_upto _ _ n); [| exact Hv | unfold column; rewrite length_map; apply HJ].
    apply sum_upto_ext. intros i Hi. rewrite (at1_column n) by assumption. reflexivity.
Qed.

Lemma calculate_hamiltonian_bilinear n (sigma : list A) (J : matrix) :
  is_square n J → length sigma = n →
  calculate_hamiltonian sigma J = Ok (int_value (bilinear n (spins sigma) J)).
Proof.
  intros HJ Hs. unfold calculate_hamiltonian.
  destruct (matmul_vm_square n (spins sigma) J HJ) as (t & -> & Ht & Hat).
  { rewrite length_spins. exact Hs. }
  simpl. unfold matmul_vv.
  rewrite decide_True by (rewrite length_spins; congruence).
  cbn [bind]. rewrite to_int_exact. do 2 f_equal.
  rewrite (dot_sum_upto _ _ n) by (rewrite ?length_spins; assumption).
  unfold bilinear. rewrite sum_upto_swap.
  apply sum_upto_ext. intros j Hj. rewrite Hat by exact Hj.
  rewrite sum_upto_mul_r. reflexivity.
Qed.

(** A configuration whose length is not the number of rows of [J] makes
    the first product raise, whatever the shape of [J]. *)
Lemma calculate_hamiltonian_mismatch (sigma : list A) (J : matrix) :
  length sigma ≠ nrows J → calculate_hamiltonian sigma J = Err ValueError.
Proof.
  intros Hne. unfold calculate_hamiltonian, matmul_vm.
  rewrite decide_False by (rewrite length_spins; exact Hne). reflexivity.
Qed.

(** ** Column-wise accumulation *)

Lemma columns_sum_bilinear k (s : list A) (J : matrix) :
  columns_sum k s s J = bilinear k s J.
Proof.
  unfold columns_sum, bilinear. apply sum_upto_ext. intros c _.
  rewrite sum_upto_mul_l. apply sum_upto_ext. intros r _. ring.
Qed.

Lemma inner_loop_sum n (sr : list A) (J : matrix) col k :
  is_square n J → length sr = n → (col < n)%nat → (k ≤ n)%nat →
  for_loop (seq 0 k) (fun row column_sum =>
      r <- getitem sr row ;;
      j <- getitem2 J col row ;;
      Ok (add column_sum (mul r j))) zero
  = Ok (sum_upto k (fun row => mul (at1 sr row) (at2 J col row))).
Proof.
  intros HJ Hs Hc Hk. apply for_loop_sum. intros row acc Hrow.
  rewrite getitem_at1 by lia. simpl.
  rewrite (getitem2_at2 n) by (assumption || lia). reflexivity.
Qed.

Lemma energy_from_columns_full_value n (s : list A) (J : matrix) vector_size :
  is_square n J → length s = n → vector_size ≤ Z.of_nat n →
  energy_from_columns_full s J vector_size
  = to_int (columns_sum (Z.to_nat vector_size) s s J).
Proof.
  intros HJ Hs Hvs. unfold energy_from_columns_full, range.
  set (k := Z.to_nat vector_size). assert (k ≤ n)%nat as Hk by lia.
  rewrite (for_loop_sum k _
    (fun col => mul (at1 s col) (sum_upto k (fun row => mul (at1 s row) (at2 J col row))))).
  - reflexivity.
  - intros col acc Hcol. rewrite getitem_at1 by lia. simpl.
    rewrite (inner_loop_sum n) by (assumption || lia). reflexivity.
Qed.

Lemma calculate_expected_output_value n (sr sc : list A) (J : matrix)
    col_per_cc vector_size :
  is_square n J → length sr = n → length sc = n →
  col_per_cc ≤ Z.of_nat n → vector_size ≤ Z.of_nat n →
  calculate_expected_output sr sc J col_per_cc vector_size
  = to_int (sum_upto (Z.to_nat col_per_cc) (fun col =>
      mul (at1 sc col)
          (sum_upto (Z.to_nat vector_size)
             (fun row => mul (at1 sr row) (at2 J col row))))).
Proof.
  intros HJ Hr Hc Hcc Hvs. unfold calculate_expected_output, range.
  erewrite for_loop_sum; [reflexivity|].
  intros col acc Hcol. simpl.
  rewrite (inner_loop_sum n) by (assumption || lia). simpl.
  rewrite getitem_at1 by lia. reflexivity.
Qed.

(** With [vector_size] past the end of the spin vector, the first column
    already raises: at its own read when the vector is empty, and
    otherwise in its row loop at row [n]. *)
Lemma energy_from_columns_full_out n (s : list A) (J : matrix) vector_size :
  is_square n J → length s = n → Z.of_nat n < vector_size →
  energy_from_columns_full s J vector_size = Err IndexError.
Proof.
  intros HJ Hs Hvs. unfold energy_from_columns_full, range.
  rewrite (for_loop_raises (fun _ _ => True) (Z.to_nat vector_size) 0 _ zero IndexError).
  - reflexivity.
  - lia.
  - exact I.
  - intros i acc Hi. lia.
  - intros acc _. destruct (decide (n = 0%nat)) as [Hn|Hn].
    + rewrite getitem_out by lia. reflexivity.
    + rewrite getitem_at1 by lia. simpl.
      rewrite (for_loop_raises (fun _ _ => True) (Z.to_nat vector_size) n _ zero IndexError).
      * reflexivity.
      * lia.
      * exact I.
      * intros row acc' Hrow _. rewrite getitem_at1 by lia. simpl.
        rewrite (getitem2_at2 n) by (assumption || lia). eexists. split; [reflexivity | exact I].
      * intros acc' _. rewrite getitem_out by lia. reflexivity.
Qed.

(** ** Flip decomposition *)

Lemma generate_sigma_r_eq :
  generate_sigma_r (A:=A) = generate_sigma_c.
Proof. reflexivity. Qed.

Lemma generate_sigma_f_lookup n (sigma_previous sigma_new : list A) :
  length sigma_previous = n → length sigma_new = n →
  ∃ sigma_f sigma_f_inv,
    generate_sigma_f sigma_previous sigma_new = Ok (sigma_f, sigma_f_inv) ∧
    length sigma_f = n ∧ length sigma_f_inv = n ∧
    ∀ i, (i < n)%nat →
      sigma_f !! i = Some (Z.b2z (flipped sigma_previous sigma_new i)) ∧
      sigma_f_inv !! i = Some (Z.b2z (negb (flipped sigma_previous sigma_new i))).
Proof.
  intros Hp Hn. unfold generate_sigma_f, np_logical_xor, broadcast2.
  rewrite decide_True by congruence. simpl.
  eexists _, _. split; [reflexivity|].
  unfold astype_int, np_logical_not.
  assert (Hlen : length (zip_with (fun x y : A => xorb (nonzero x) (nonzero y))
                           sigma_previous sigma_new) = n).
  { rewrite length_zip_with. lia. }
  split; [rewrite length_map; exact Hlen|].
  split; [rewrite !length_map; exact Hlen|].
  intros i Hi.
  assert (Hf : map Z.b2z (zip_with (fun x y : A => xorb (nonzero x) (nonzero y))
                 sigma_previous sigma_new) !! i
               = Some (Z.b2z (flipped sigma_previous sigma_new i))).
  { rewrite list_lookup_fmap, lookup_zip_with.
    rewrite (lookup_at1 sigma_previous i), (lookup_at1 sigma_new i) by lia.
    reflexivity. }
  split; [exact Hf|].
  rewrite !list_lookup_fmap. rewrite list_lookup_fmap in Hf.
  destruct (zip_with _ sigma_previous sigma_new !! i) as [b|]; [|discriminate].
  simpl in Hf. injection Hf as Hb.
  assert (Hbf : b = flipped sigma_previous sigma_new i).
  { destruct b, (flipped sigma_previous sigma_new i); simpl in Hb;
      (reflexivity || discriminate). }
  rewrite <- Hbf. simpl. destruct b; reflexivity.
Qed.

Lemma encoded_step mask (sigma_new : list A) k i :
  i ≠ k → encoded mask sigma_new (S k) i = encoded mask sigma_new k i.
Proof.
  intros Hne. unfold encoded.
  destruct (decide (i < S k)%nat), (decide (i < k)%nat); try reflexivity; lia.
Qed.

Lemma encoded_here mask (sigma_new : list A) k :
  encoded mask sigma_new (S k) k
  = if nonzero (at1 mask k) then (if nonzero (at1 sigma_new k) then 1 else -1) else 0.
Proof. unfold encoded. rewrite decide_True by lia. reflexivity. Qed.

Lemma encode_inv_init n mask (sigma_new : list A) :
  encode_inv n mask sigma_new O (np_zeros_int n).
Proof.
  split; [apply length_replicate|].
  intros i Hi. unfold np_zeros_int. rewrite lookup_replicate_2 by exact Hi.
  unfold encoded. rewrite decide_False by lia. reflexivity.
Qed.

Lemma encode_inv_step n mask (sigma_new : list A) i acc :
  length mask = n → length sigma_new = n → (i < n)%nat →
  encode_inv n mask sigma_new i acc →
  ∃ acc',
    (f <- getitem mask i ;;
     if nonzero f then
       b <- getitem sigma_new i ;;
       setitem acc i (if nonzero b then 1 else -1)
     else setitem acc i 0) = Ok acc' ∧
    encode_inv n mask sigma_new (S i) acc'.
Proof.
  intros Hm Hs Hi [Hlen Hacc].
  rewrite getitem_at1 by lia. cbn [bind].
  exists (<[i := encoded mask sigma_new (S i) i]> acc). split.
  - rewrite encoded_here. destruct (nonzero (at1 mask i)).
    + rewrite getitem_at1 by lia. cbn [bind]. apply setitem_ok. lia.
    + apply setitem_ok. lia.
  - split; [rewrite length_insert; exact Hlen|].
    intros i' Hi'. destruct (decide (i' = i)) as [->|Hne].
    + apply list_lookup_insert_eq. lia.
    + rewrite list_lookup_insert_ne by congruence.
      rewrite encoded_step by exact Hne. apply Hacc. exact Hi'.
Qed.

Lemma generate_sigma_c_encoded n mask (sigma_new : list A) vector_size :
  length mask = n → length sigma_new = n → vector_size ≤ Z.of_nat n →
  ∃ sigma_c,
    generate_sigma_c mask sigma_new vector_size = Ok sigma_c ∧
    length sigma_c = n ∧
    ∀ i, (i < n)%nat →
      sigma_c !! i = Some (encoded mask sigma_new (Z.to_nat vector_size) i).
Proof.
  intros Hm Hs Hvs. unfold generate_sigma_c, range. rewrite Hm.
  destruct (for_loop_inv (encode_inv n mask sigma_new) (Z.to_nat vector_size)
    (fun i sigma_c =>
       f <- getitem mask i ;;
       if nonzero f then
         b <- getitem sigma_new i ;;
         setitem sigma_c i (if nonzero b then 1 else -1)
       else setitem sigma_c i 0) (np_zeros_int n)) as (sc & E & Hlen & Hsc).
  - apply encode_inv_init.
  - intros i acc Hi Hinv. apply encode_inv_step; (assumption || lia).
  - exists sc. auto.
Qed.

Lemma generate_sigma_c_out n mask (sigma_new : list A) vector_size :
  length mask = n → length sigma_new = n → Z.of_nat n < vector_size →
  generate_sigma_c mask sigma_new vector_size = Err IndexError.
Proof.
  intros Hm Hs Hvs. unfold generate_sigma_c, range. rewrite Hm.
  apply (for_loop_raises (encode_inv n mask sigma_new) (Z.to_nat vector_size) n).
  - lia.
  - apply encode_inv_init.
  - intros i acc Hi Hinv. apply encode_inv_step; (assumption || lia).
  - intros acc _. rewrite getitem_out by lia. reflexivity.
Qed.

(** ** Energies of particular configurations *)

Lemma at1_replicate (x : A) n i : (i < n)%nat → at1 (replicate n x) i = x.
Proof. intros Hi. apply at1_lookup. apply lookup_replicate_2. exact Hi. Qed.

Lemma at1_spins (sigma : list A) i :
  (i < length sigma)%nat → at1 (spins sigma) i = sub (mul two (at1 sigma i)) one.
Proof.
  intros Hi. apply at1_lookup. unfold spins.
  rewrite list_lookup_fmap, (lookup_at1 sigma i) by exact Hi. reflexivity.
Qed.

(** Negating every spin leaves the quadratic form unchanged; the all-ones
    and all-zeros configurations are the two ends of that inversion. *)
Lemma bilinear_ones_zeros n (J : matrix) :
  bilinear n (spins (replicate n zero)) J = bilinear n (spins (replicate n one)) J.
Proof.
  unfold bilinear.
  apply sum_upto_ext. intros i Hi. apply sum_upto_ext. intros j Hj.
  rewrite !at1_spins by (rewrite length_replicate; assumption).
  rewrite !at1_replicate by assumption. unfold two. ring.
Qed.

Lemma at2_replicate n (c : A) i j :
  (i < n)%nat → (j < n)%nat → at2 (replicate n (replicate n c)) i j = c.
Proof.
  intros Hi Hj. unfold at2.
  rewrite lookup_replicate_2 by exact Hi. simpl.
  rewrite lookup_replicate_2 by exact Hj. reflexivity.
Qed.

Lemma is_square_replicate n (c : A) : is_square n (replicate n (replicate n c)).
Proof.
  split; [apply length_replicate|].
  apply Forall_replicate, length_replicate.
Qed.

(** Under a uniform coupling the all-ones configuration sums [n * n]
    copies of the constant. *)
Lemma bilinear_uniform n (c : A) :
  bilinear n (spins (replicate n one)) (replicate n (replicate n c))
  = sum_upto n (fun _ => sum_upto n (fun _ => c)).
Proof.
  unfold bilinear.
  apply sum_upto_ext. intros i Hi. apply sum_upto_ext. intros j Hj.
  rewrite !at1_spins by (rewrite length_replicate; assumption).
  rewrite !at1_replicate, at2_replicate by assumption. unfold two. ring.
Qed.

Lemma energy_from_columns_full_bilinear n (s : list A) (J : matrix) :
  is_square n J → length s = n →
  energy_from_columns_full s J (Z.of_nat n) = Ok (int_value (bilinear n s J)).
Proof.
  intros HJ Hs. rewrite (energy_from_columns_full_value n) by (assumption || lia).
  rewrite Nat2Z.id, columns_sum_bilinear. apply to_int_exact.
Qed.

(** With equal row and column encodings and the full column range, the
    hardware accumulation is the column-wise energy. *)
Lemma calculate_expected_output_full n (s : list A) (J : matrix) :
  is_square n J → length s = n →
  calculate_expected_output s s J (Z.of_nat n) (Z.of_nat n)
  = energy_from_columns_full s J (Z.of_nat n).
Proof.
  intros HJ Hs.
  rewrite (calculate_expected_output_value n) by (assumption || lia).
  rewrite (energy_from_columns_full_value n) by (assumption || lia).
  reflexivity.
Qed.

(** ** The consistency check at the full size and past it *)

Lemma verify_iterative_vs_hamiltonian_full n (sigma_old sigma_new : list A)
    (J : matrix) :
  length sigma_old = n → length sigma_new = n → is_square n J →
  ∃ d, verify_iterative_vs_hamiltonian sigma_old sigma_new J (Z.of_nat n)
       = Ok (true, d, d).
Proof.
  intros Ho Hn HJ.
  unfold verify_iterative_vs_hamiltonian, calculate_energy_difference.
  rewrite !(energy_from_columns_full_bilinear n) by (rewrite ?length_spins; assumption).
  rewrite !(calculate_hamiltonian_bilinear n) by assumption.
  cbn [bind]. rewrite Z.eqb_refl. eexists. reflexivity.
Qed.

Lemma verify_iterative_vs_hamiltonian_out n (sigma_old sigma_new : list A)
    (J : matrix) vector_size :
  length sigma_old = n → length sigma_new = n → is_square n J →
  Z.of_nat n < vector_size →
  verify_iterative_vs_hamiltonian sigma_old sigma_new J vector_size = Err IndexError.
Proof.
  intros Ho Hn HJ Hvs. unfold verify_iterative_vs_hamiltonian.
  rewrite (energy_from_columns_full_out n) by (rewrite ?length_spins; assumption).
  reflexivity.
Qed.

(** ** Binary configurations *)

Lemma zero_not_one : (zero : A) ≠ one.
Proof.
  intros E. pose proof (one_nonzero (A:=A)) as H1.
  rewrite <- E, nonzero_zero in H1. discriminate.
Qed.

Lemma is_binary_at1 (sigma : list A) i :
  is_binary sigma → (i < length sigma)%nat → at1 sigma i = zero ∨ at1 sigma i = one.
Proof.
  intros Hb Hi. unfold is_binary in Hb. rewrite Forall_lookup in Hb.
  apply (Hb i). apply lookup_at1. exact Hi.
Qed.

Lemma binary_nonzero_one (b : A) : b = zero ∨ b = one → (nonzero b = true ↔ b = one).
Proof.
  intros [->| ->].
  - rewrite nonzero_zero. split; [discriminate|]. intros E. destruct (zero_not_one E).
  - rewrite one_nonzero. split; reflexivity.
Qed.

Lemma binary_nonzero_false (b : A) :
  b = zero ∨ b = one → nonzero b = false → b = zero.
Proof.
  intros [->| ->] Hz; [reflexivity|]. rewrite one_nonzero in Hz. discriminate.
Qed.

Lemma binary_flipped (x y : A) :
  x = zero ∨ x = one → y = zero ∨ y = one →
  (xorb (nonzero x) (nonzero y) = true ↔ x ≠ y).
Proof.
  pose proof zero_not_one as Hne.
  intros [->| ->] [->| ->]; rewrite ?nonzero_zero, ?one_nonzero; simpl;
    split; intros H; try discriminate; try congruence.
Qed.

Lemma clamp_binary (sigma : list A) : is_binary sigma → clamp sigma = sigma.
Proof.
  intros Hb. unfold clamp. induction Hb as [|b l Hbin _ IH]; [reflexivity|].
  simpl. rewrite IH. f_equal.
  destruct Hbin as [->| ->]; [rewrite nonzero_zero | rewrite one_nonzero]; reflexivity.
Qed.

Lemma nonzero_b2z (b : bool) : nonzero (Z.b2z b) = b.
Proof. destruct b; reflexivity. Qed.

End Facts.

(** ** The stated properties *)

Section Properties.
Context {A : Type} `{DA : Dtype A}.
Local Abbreviation matrix := (list (list A)).

(** C2, as the code has it. For binary configurations of length [n], a
    square [J] of size [n] and [vector_size <= n],
    [verify_iterative_vs_hamiltonian] takes for each configuration [int] of
    the column-wise sum over the first [vector_size] columns of
    [s[col] * (sum over the first vector_size rows of s[row] * J[col, row])]
    on that configuration's own spin vector [s], differences the two,
    takes [calculate_energy_difference], and returns the triple with
    [match] true exactly when the two integers are equal; an exception of
    one of the three steps is the exception of the whole. Past [n] it
    raises [IndexError]. *)
Theorem verify_iterative_vs_hamiltonian_correct n (sigma_old sigma_new : list A)
    (J : matrix) (vector_size : Z) :
  is_binary sigma_old → is_binary sigma_new →
  length sigma_old = n → length sigma_new = n → is_square n J →
  (vector_size ≤ Z.of_nat n →
   verify_iterative_vs_hamiltonian sigma_old sigma_new J vector_size
   = (e_new <- to_int (columns_sum (Z.to_nat vector_size)
                         (spins sigma_new) (spins sigma_new) J) ;;
      e_old <- to_int (columns_sum (Z.to_nat vector_size)
                         (spins sigma_old) (spins sigma_old) J) ;;
      full <- calculate_energy_difference sigma_old sigma_new J ;;
      Ok (e_new - e_old =? full, e_new - e_old, full)))
  ∧ (∀ match_ iterative full,
       verify_iterative_vs_hamiltonian sigma_old sigma_new J vector_size
         = Ok (match_, iterative, full) →
       calculate_energy_difference sigma_old sigma_new J = Ok full
       ∧ (match_ = true ↔ iterative = full))
  ∧ (Z.of_nat n < vector_size →
     verify_iterative_vs_hamiltonian sigma_old sigma_new J vector_size
     = Err IndexError).
Proof.
  intros _ _ Ho Hn HJ. split; [|split].
  - intros Hvs. unfold verify_iterative_vs_hamiltonian.
    rewrite !(energy_from_columns_full_value n) by (rewrite ?length_spins; assumption).
    reflexivity.
  - intros m it full. unfold verify_iterative_vs_hamiltonian.
    destruct (energy_from_columns_full (spins sigma_new) J vector_size) as [e_new|];
      [|discriminate].
    destruct (energy_from_columns_full (spins sigma_old) J vector_size) as [e_old|];
      [|discriminate].
    destruct (calculate_energy_difference sigma_old sigma_new J) as [h|];
      [|discriminate].
    cbn [bind]. intros E. injection E as <- <- <-.
    split; [reflexivity | apply Z.eqb_eq].
  - intros Hvs. apply (verify_iterative_vs_hamiltonian_out n); assumption.
Qed.

(** C5. A configuration whose length differs from the dimension of the
    square matrix [J] makes [calculate_hamiltonian] raise numpy's shape
    error ([ValueError]); no number is returned. *)
Theorem shape_mismatch_raises n (sigma : list A) (J : matrix) :
  is_square n J → length sigma ≠ n →
  raises (calculate_hamiltonian sigma J) ValueError
  ∧ ∀ e, calculate_hamiltonian sigma J ≠ Ok e.
Proof.
  intros [Hl _] Hne. unfold raises.
  rewrite calculate_hamiltonian_mismatch by (unfold nrows; congruence).
  split; [reflexivity | discriminate].
Qed.

(** C4. For binary configurations [sigma_old], [sigma_new] of length [n]
    and any [vector_size]: at every index exactly one of [sigma_f[i]],
    [sigma_f_inv[i]] is 1; the encodings [sigma_c], [sigma_r], which are
    produced whenever [vector_size <= n], are never both nonzero at an
    index, and at every index below [vector_size] exactly one of them is
    nonzero. *)
Theorem decomposition_completeness n (sigma_old sigma_new : list A) (vector_size : Z) :
  is_binary sigma_old → is_binary sigma_new →
  length sigma_old = n → length sigma_new = n →
  ∃ sigma_f sigma_f_inv,
    generate_sigma_f sigma_old sigma_new = Ok (sigma_f, sigma_f_inv) ∧
    (∀ i, (i < n)%nat →
       ∃ f g, sigma_f !! i = Some f ∧ sigma_f_inv !! i = Some g ∧
              ((f = 1 ∧ g ≠ 1) ∨ (f ≠ 1 ∧ g = 1))) ∧
    (vector_size ≤ Z.of_nat n →
       ∃ sigma_c sigma_r,
         generate_sigma_c sigma_f sigma_new vector_size = Ok sigma_c ∧
         generate_sigma_r sigma_f_inv sigma_new vector_size = Ok sigma_r) ∧
    (∀ sigma_c sigma_r,
       generate_sigma_c sigma_f sigma_new vector_size = Ok sigma_c →
       generate_sigma_r sigma_f_inv sigma_new vector_size = Ok sigma_r →
       ∀ i, (i < n)%nat →
         ∃ c r, sigma_c !! i = Some c ∧ sigma_r !! i = Some r ∧
                ¬ (c ≠ 0 ∧ r ≠ 0) ∧
                (Z.of_nat i < vector_size → (c ≠ 0 ∧ r = 0) ∨ (c = 0 ∧ r ≠ 0))).
Proof.
  intros _ _ Ho Hn.
  destruct (generate_sigma_f_lookup n sigma_old sigma_new Ho Hn)
    as (sf & sfi & Ef & Lf & Lfi & Hf).
  exists sf, sfi. split; [exact Ef|]. split; [|split].
  - intros i Hi. destruct (Hf i Hi) as [E1 E2].
    eexists _, _. split; [exact E1|]. split; [exact E2|].
    destruct (flipped sigma_old sigma_new i); simpl; [left | right]; split;
      (reflexivity || discriminate).
  - intros Hvs.
    destruct (generate_sigma_c_encoded n sf sigma_new vector_size Lf Hn Hvs)
      as (sc & Ec & _).
    destruct (generate_sigma_c_encoded n sfi sigma_new vector_size Lfi Hn Hvs)
      as (sr & Er & _).
    exists sc, sr. split; [exact Ec | exact Er].
  - intros sc sr Ec Er i Hi.
    change (generate_sigma_c sfi sigma_new vector_size = Ok sr) in Er.
    destruct (Z_le_gt_dec vector_size (Z.of_nat n)) as [Hvs|Hvs].
    + destruct (generate_sigma_c_encoded n sf sigma_new vector_size Lf Hn Hvs)
        as (sc' & Ec' & _ & Hc).
      destruct (generate_sigma_c_encoded n sfi sigma_new vector_size Lfi Hn Hvs)
        as (sr' & Er' & _ & Hr).
      rewrite Ec in Ec'. injection Ec' as <-.
      rewrite Er in Er'. injection Er' as <-.
      eexists _, _. split; [apply Hc; exact Hi|]. split; [apply Hr; exact Hi|].
      destruct (Hf i Hi) as [E1 E2].
      unfold encoded. rewrite (at1_lookup _ _ _ E1), (at1_lookup _ _ _ E2).
      rewrite !nonzero_b2z.
      destruct (decide (i < Z.to_nat vector_size)%nat) as [Hk|Hk],
               (flipped sigma_old sigma_new i),
               (nonzero (at1 sigma_new i)); simpl; split;
        try (intros [H1 H2]; congruence);
        try (intros Hlt; lia);
        intros _; (left; split; [discriminate | reflexivity])
                  || (right; split; [reflexivity | discriminate]).
    + rewrite (generate_sigma_c_out n) in Ec by (assumption || lia). discriminate.
Qed.

(** C8. For binary configurations of length [n] and [vector_size = n]:
    [sigma_f[i]] is 1 exactly at the indices where the two configurations
    differ; at such an index [sigma_new[i] = 1] iff [sigma_c[i] = +1], at
    the other indices [sigma_new[i] = 1] iff [sigma_r[i] = +1]; reading the
    bits back this way gives [sigma_new]. *)
Theorem decomposition_round_trip n (sigma_old sigma_new : list A) :
  is_binary sigma_old → is_binary sigma_new →
  length sigma_old = n → length sigma_new = n →
  ∃ sigma_f sigma_f_inv sigma_c sigma_r,
    generate_sigma_f sigma_old sigma_new = Ok (sigma_f, sigma_f_inv) ∧
    generate_sigma_c sigma_f sigma_new (Z.of_nat n) = Ok sigma_c ∧
    generate_sigma_r sigma_f_inv sigma_new (Z.of_nat n) = Ok sigma_r ∧
    (∀ i, (i < n)%nat →
       ∃ f c r, sigma_f !! i = Some f ∧ sigma_c !! i = Some c ∧ sigma_r !! i = Some r ∧
                (f = 1 ∨ f = 0) ∧
                (f = 1 ↔ at1 sigma_old i ≠ at1 sigma_new i) ∧
                (f = 1 → (at1 sigma_new i = one ↔ c = 1)) ∧
                (f = 0 → (at1 sigma_new i = one ↔ r = 1))) ∧
    reconstruct sigma_f sigma_c sigma_r = sigma_new.
Proof.
  intros Bo Bn Ho Hn.
  destruct (generate_sigma_f_lookup n sigma_old sigma_new Ho Hn)
    as (sf & sfi & Ef & Lf & Lfi & Hf).
  destruct (generate_sigma_c_encoded n sf sigma_new (Z.of_nat n) Lf Hn ltac:(lia))
    as (sc & Ec & Lc & Hc).
  destruct (generate_sigma_c_encoded n sfi sigma_new (Z.of_nat n) Lfi Hn ltac:(lia))
    as (sr & Er & Lr & Hr).
  rewrite Nat2Z.id in Hc, Hr.
  exists sf, sfi, sc, sr.
  split; [exact Ef|]. split; [exact Ec|]. split; [exact Er|].
  assert (Hpt : ∀ i, (i < n)%nat →
            sf !! i = Some (Z.b2z (flipped sigma_old sigma_new i)) ∧
            sc !! i = Some (if flipped sigma_old sigma_new i
                            then (if nonzero (at1 sigma_new i) then 1 else -1) else 0) ∧
            sr !! i = Some (if flipped sigma_old sigma_new i
                            then 0 else (if nonzero (at1 sigma_new i) then 1 else -1))).
  { intros i Hi. destruct (Hf i Hi) as [E1 E2].
    split; [exact E1|]. rewrite (Hc i Hi), (Hr i Hi). unfold encoded.
    rewrite !decide_True by exact Hi.
    rewrite (at1_lookup _ _ _ E1), (at1_lookup _ _ _ E2), !nonzero_b2z.
    destruct (flipped sigma_old sigma_new i); split; reflexivity. }
  split.
  - intros i Hi. destruct (Hpt i Hi) as (E1 & E2 & E3).
    eexists _, _, _. split; [exact E1|]. split; [exact E2|]. split; [exact E3|].
    pose proof (is_binary_at1 sigma_old i Bo ltac:(lia)) as Bi.
    pose proof (is_binary_at1 sigma_new i Bn ltac:(lia)) as Bi'.
    pose proof (binary_flipped _ _ Bi Bi') as Hx.
    pose proof (binary_nonzero_one _ Bi') as Hone.
    unfold flipped in *.
    destruct (xorb (nonzero (at1 sigma_old i)) (nonzero (at1 sigma_new i)));
      destruct (nonzero (at1 sigma_new i)); simpl;
      repeat split; try tauto; try discriminate; try (intros; lia);
      try (intros E; exfalso; apply (proj1 Hx eq_refl); exact E);
      try (intros E; apply Hone in E; discriminate);
      try (intros _; apply Hone; reflexivity);
      try (intros Hd; exfalso; destruct Hx as [_ Hx]; specialize (Hx Hd); discriminate);
      auto.
  - apply list_eq. intros i. unfold reconstruct.
    rewrite lookup_zip_with, lookup_zip_with.
    destruct (decide (i < n)%nat) as [Hi|Hi].
    + destruct (Hpt i Hi) as (E1 & E2 & E3). rewrite E1, E2, E3. simpl.
      rewrite (lookup_at1 sigma_new i) by lia.
      pose proof (is_binary_at1 sigma_new i Bn ltac:(lia)) as Bi'.
      destruct (flipped sigma_old sigma_new i),
               (nonzero (at1 sigma_new i)) eqn:Hnz; simpl;
        f_equal; symmetry;
        (apply (binary_nonzero_one _ Bi'); exact Hnz)
        || (apply (binary_nonzero_false _ Bi'); exact Hnz).
    + rewrite (lookup_ge_None_2 sf), (lookup_ge_None_2 sigma_new) by lia. reflexivity.
Qed.

(** C10. For numeric vectors of equal length, whatever their elements,
    [generate_sigma_f] returns two vectors of that length whose elements are
    0 or 1 and sum to 1 at every index; [sigma_f[i]] is 1 exactly when one
    of the two inputs, but not both, is nonzero at [i]. *)
Theorem generate_sigma_f_complement n (sigma_previous sigma_new : list A) :
  length sigma_previous = n → length sigma_new = n →
  ∃ sigma_f sigma_f_inv,
    generate_sigma_f sigma_previous sigma_new = Ok (sigma_f, sigma_f_inv) ∧
    length sigma_f = n ∧ length sigma_f_inv = n ∧
    ∀ i, (i < n)%nat →
      ∃ f g, sigma_f !! i = Some f ∧ sigma_f_inv !! i = Some g ∧
             (f = 0 ∨ f = 1) ∧ (g = 0 ∨ g = 1) ∧ f + g = 1 ∧
             (f = 1 ↔ xorb (nonzero (at1 sigma_previous i))
                           (nonzero (at1 sigma_new i)) = true).
Proof.
  intros Hp Hn.
  destruct (generate_sigma_f_lookup n sigma_previous sigma_new Hp Hn)
    as (sf & sfi & Ef & Lf & Lfi & Hf).
  exists sf, sfi. repeat (split; [assumption|]).
  intros i Hi. destruct (Hf i Hi) as [E1 E2].
  eexists _, _. split; [exact E1|]. split; [exact E2|].
  unfold flipped.
  destruct (xorb (nonzero (at1 sigma_previous i)) (nonzero (at1 sigma_new i)));
    simpl; repeat split; auto; discriminate.
Qed.

End Properties.

(** ** Properties of arrays with exact arithmetic *)

Section ExactProperties.
Context {A : Type} `{DA : Dtype A} `{EA : !ExactDtype A}.
Local Abbreviation matrix := (list (list A)).

(** C1, as the code has it. For a binary configuration [sigma] of length
    [n] and an [n] x [n] matrix [J] held in arrays whose arithmetic is exact
    (int64 with its wrap-around, Python integers), the column-wise
    accumulation [energy_from_columns_full] on the spin vector
    [2*sigma - 1] with [vector_size = n] returns exactly what
    [calculate_hamiltonian sigma J] returns, and that is a number. *)
Theorem column_accumulation_equals_hamiltonian n (sigma : list A) (J : matrix) :
  is_binary sigma → length sigma = n → is_square n J →
  energy_from_columns_full (spins sigma) J (Z.of_nat n) = calculate_hamiltonian sigma J
  ∧ ∃ e, calculate_hamiltonian sigma J = Ok e.
Proof.
  intros _ Hs HJ.
  rewrite (energy_from_columns_full_bilinear n) by (rewrite ?length_spins; assumption).
  rewrite (calculate_hamiltonian_bilinear n) by assumption.
  split; [reflexivity | eexists; reflexivity].
Qed.


(** C6, as the code has it. On arrays of whole numbers with exact
    arithmetic and matching dimension, [calculate_hamiltonian] returns an
    integer, the value of the quadratic form (on int64 arrays its signed
    value modulo [2^64]); its result is an integer for every input, [int]
    being its last step. *)
Theorem energy_is_integer n (sigma : list A) (J : matrix) :
  is_square n J → length sigma = n →
  calculate_hamiltonian sigma J = Ok (int_value (bilinear n (spins sigma) J)).
Proof. intros HJ Hs. apply (calculate_hamiltonian_bilinear n); assumption. Qed.

(** C9, as the code has it. The spin conversion is [2*b - 1] on every
    element, with no clamping of nonzero elements to 1: on arrays with exact
    arithmetic and matching length, binary or not, the energy is the
    quadratic form of the vector [2*sigma - 1]. Replacing the nonzero
    elements by 1 leaves a binary configuration, and so its energy,
    unchanged. *)
Theorem spin_conversion_is_affine n (sigma : list A) (J : matrix) :
  is_square n J → length sigma = n →
  calculate_hamiltonian sigma J
  = Ok (int_value (sum_upto n (fun i => sum_upto n (fun j =>
      mul (mul (sub (mul two (at1 sigma i)) one) (at2 J i j))
          (sub (mul two (at1 sigma j)) one)))))
  ∧ (is_binary sigma →
     calculate_hamiltonian (clamp sigma) J = calculate_hamiltonian sigma J).
Proof.
  intros HJ Hs. split.
  - rewrite (calculate_hamiltonian_bilinear n) by assumption.
    do 2 f_equal. unfold bilinear.
    apply sum_upto_ext. intros i Hi. apply sum_upto_ext. intros j Hj.
    rewrite !at1_spins by lia. reflexivity.
  - intros Hb. rewrite clamp_binary by exact Hb. reflexivity.
Qed.

End ExactProperties.

(** ** int64 and float64 arrays *)

Lemma sum_upto_const_int64 n (c : Z) :
  sum_upto n (fun _ => i64 c) = i64 (Z.of_nat n * c).
Proof.
  induction n as [|n IH]; [reflexivity|].
  cbn [sum_upto]. rewrite IH. cbn [add int64_dtype]. unfold i64.
  rewrite <- Zmod.of_Z_add. f_equal. lia.
Qed.


(** C1, as stated, fails on float64 arrays: for the binary configuration
    [[1, 1]] and the square matrix [[[0, 0.1], [0.2, 0.7]]] the column-wise
    accumulation rounds to [0.9999999999999999] and returns 0, while
    [calculate_hamiltonian] returns 1. *)
Lemma column_accumulation_rounds_differently :
  is_binary [1; 1]%float
  ∧ is_square 2 [[0; 0.1]; [0.2; 0.7]]%float
  ∧ calculate_hamiltonian [1; 1]%float [[0; 0.1]; [0.2; 0.7]]%float = Ok 1
  ∧ energy_from_columns_full (spins [1; 1]%float) [[0; 0.1]; [0.2; 0.7]]%float 2
    = Ok 0.
Proof.
  split; [binary_config|]. split; [square_matrix|].
  split; vm_compute; reflexivity.
Qed.

(** C2, as stated, fails: on the binary float64 configurations [[1, 1]] and
    [[0, 1]], the square matrix with entries [1e308] and
    [vector_size = 2] the column-wise energy overflows and
    [verify_iterative_vs_hamiltonian] raises [OverflowError] instead of
    returning a triple. *)
Lemma verify_iterative_overflow_raises :
  is_binary [1; 1]%float ∧ is_binary [0; 1]%float
  ∧ is_square 2 [[1e308; 1e308]; [1e308; 1e308]]%float
  ∧ verify_iterative_vs_hamiltonian [1; 1]%float [0; 1]%float
      [[1e308; 1e308]; [1e308; 1e308]]%float 2 = Err OverflowError.
Proof.
  split; [binary_config|]. split; [binary_config|]. split; [square_matrix|].
  vm_compute. reflexivity.
Qed.


(** C6, as stated, fails in its second half: with the fractional coupling
    [J = [[0.5]]] and the configuration [[1]] the quadratic form is [0.5],
    yet the value returned is the integer 0. *)
Lemma fractional_coupling_returns_integer :
  (mul (mul (sub (mul two 1) 1) 0.5) (sub (mul two 1) 1) = 0.5)%float
  ∧ calculate_hamiltonian [1]%float [[0.5]]%float = Ok 0.
Proof. split; vm_compute; reflexivity. Qed.


(** C9, as stated, fails: the configuration [[2]] is not binary, its energy
    under [J = [[1]]] is [3 * 1 * 3 = 9], and the energy of the
    configuration with the nonzero element replaced by 1 is 1. *)
Lemma nonbinary_element_not_clamped :
  ¬ is_binary [2 : Z]
  ∧ clamp [2 : Z] = [1]
  ∧ calculate_hamiltonian [2 : Z] [[1]] = Ok 9
  ∧ calculate_hamiltonian (clamp [2 : Z]) [[1]] = Ok 1.
Proof.
  split; [|repeat split].
  intros H. inversion H as [|b l [E|E] _]; cbv in E; discriminate E.
Qed.

(** ** Concrete instances *)

Lemma column_accumulation_equals_hamiltonian_witness :
  energy_from_columns_full (spins [i64 1; i64 0; i64 1])
    [[i64 1; i64 2; i64 3]; [i64 4; i64 5; i64 6]; [i64 7; i64 8; i64 9]] 3
  = calculate_hamiltonian [i64 1; i64 0; i64 1]
      [[i64 1; i64 2; i64 3]; [i64 4; i64 5; i64 6]; [i64 7; i64 8; i64 9]]
  ∧ ∃ e, calculate_hamiltonian [i64 1; i64 0; i64 1]
           [[i64 1; i64 2; i64 3]; [i64 4; i64 5; i64 6]; [i64 7; i64 8; i64 9]]
         = Ok e.
Proof.
  apply (column_accumulation_equals_hamiltonian 3 [i64 1; i64 0; i64 1]);
    [binary_config | reflexivity | square_matrix].
Defined.

Lemma verify_iterative_vs_hamiltonian_correct_witness :
  verify_iterative_vs_hamiltonian [1; 1]%float [0; 1]%float
    [[0; 0.1]; [0.2; 0.7]]%float 2
  = (e_new <- to_int (columns_sum (Z.to_nat 2)
                        (spins [0; 1]%float) (spins [0; 1]%float)
                        [[0; 0.1]; [0.2; 0.7]]%float) ;;
     e_old <- to_int (columns_sum (Z.to_nat 2)
                        (spins [1; 1]%float) (spins [1; 1]%float)
                        [[0; 0.1]; [0.2; 0.7]]%float) ;;
     full <- calculate_energy_difference [1; 1]%float [0; 1]%float
               [[0; 0.1]; [0.2; 0.7]]%float ;;
     Ok (e_new - e_old =? full, e_new - e_old, full)).
Proof.
  apply (proj1 (verify_iterative_vs_hamiltonian_correct 2 [1; 1]%float [0; 1]%float
                  [[0; 0.1]; [0.2; 0.7]]%float 2
                  ltac:(binary_config) ltac:(binary_config)
                  eq_refl eq_refl ltac:(square_matrix))).
  discriminate.
Defined.


Lemma shape_mismatch_raises_witness :
  raises (calculate_hamiltonian [1; 0; 1]%float J_small) ValueError
  ∧ ∀ e, calculate_hamiltonian [1; 0; 1]%float J_small ≠ Ok e.
Proof.
  apply (shape_mismatch_raises 8 [1; 0; 1]%float J_small);
    [square_matrix | discriminate].
Defined.

Lemma decomposition_completeness_witness :
  ∃ sigma_f sigma_f_inv,
    generate_sigma_f sigma_prev_test sigma_new_test = Ok (sigma_f, sigma_f_inv) ∧
    (∀ i, (i < 8)%nat →
       ∃ f g, sigma_f !! i = Some f ∧ sigma_f_inv !! i = Some g ∧
              ((f = 1 ∧ g ≠ 1) ∨ (f ≠ 1 ∧ g = 1))) ∧
    (5 ≤ Z.of_nat 8 →
       ∃ sigma_c sigma_r,
         generate_sigma_c sigma_f sigma_new_test 5 = Ok sigma_c ∧
         generate_sigma_r sigma_f_inv sigma_new_test 5 = Ok sigma_r) ∧
    (∀ sigma_c sigma_r,
       generate_sigma_c sigma_f sigma_new_test 5 = Ok sigma_c →
       generate_sigma_r sigma_f_inv sigma_new_test 5 = Ok sigma_r →
       ∀ i, (i < 8)%nat →
         ∃ c r, sigma_c !! i = Some c ∧ sigma_r !! i = Some r ∧
                ¬ (c ≠ 0 ∧ r ≠ 0) ∧
                (Z.of_nat i < 5 → (c ≠ 0 ∧ r = 0) ∨ (c = 0 ∧ r ≠ 0))).
Proof.
  apply (decomposition_completeness 8 sigma_prev_test sigma_new_test 5);
    [binary_config | binary_config | reflexivity | reflexivity].
Defined.

Lemma decomposition_round_trip_witness :
  ∃ sigma_f sigma_f_inv sigma_c sigma_r,
    generate_sigma_f sigma_prev_test sigma_new_test = Ok (sigma_f, sigma_f_inv) ∧
    generate_sigma_c sigma_f sigma_new_test (Z.of_nat 8) = Ok sigma_c ∧
    generate_sigma_r sigma_f_inv sigma_new_test (Z.of_nat 8) = Ok sigma_r ∧
    (∀ i, (i < 8)%nat →
       ∃ f c r, sigma_f !! i = Some f ∧ sigma_c !! i = Some c ∧ sigma_r !! i = Some r ∧
                (f = 1 ∨ f = 0) ∧
                (f = 1 ↔ at1 sigma_prev_test i ≠ at1 sigma_new_test i) ∧
                (f = 1 → (at1 sigma_new_test i = one ↔ c = 1)) ∧
                (f = 0 → (at1 sigma_new_test i = one ↔ r = 1))) ∧
    reconstruct sigma_f sigma_c sigma_r = sigma_new_test.
Proof.
  apply (decomposition_round_trip 8 sigma_prev_test sigma_new_test);
    [binary_config | binary_config | reflexivity | reflexivity].
Defined.

Lemma generate_sigma_f_complement_witness :
  ∃ sigma_f sigma_f_inv,
    generate_sigma_f [5; 0; -2 : Z] [1; 0; 0 : Z] = Ok (sigma_f, sigma_f_inv) ∧
    length sigma_f = 3%nat ∧ length sigma_f_inv = 3%nat ∧
    ∀ i, (i < 3)%nat →
      ∃ f g, sigma_f !! i = Some f ∧ sigma_f_inv !! i = Some g ∧
             (f = 0 ∨ f = 1) ∧ (g = 0 ∨ g = 1) ∧ f + g = 1 ∧
             (f = 1 ↔ xorb (nonzero (at1 [5; 0; -2 : Z] i))
                           (nonzero (at1 [1; 0; 0 : Z] i)) = true).
Proof.
  apply (generate_sigma_f_complement 3 [5; 0; -2 : Z] [1; 0; 0 : Z]); reflexivity.
Defined.

Lemma energy_is_integer_witness :
  calculate_hamiltonian [i64 1; i64 1]
    [[i64 (2 ^ 62); i64 (2 ^ 62)]; [i64 (2 ^ 62); i64 (2 ^ 62)]]
  = Ok (int_value (bilinear 2 (spins [i64 1; i64 1])
                     [[i64 (2 ^ 62); i64 (2 ^ 62)]; [i64 (2 ^ 62); i64 (2 ^ 62)]])).
Proof.
  apply (energy_is_integer 2 [i64 1; i64 1]
           [[i64 (2 ^ 62); i64 (2 ^ 62)]; [i64 (2 ^ 62); i64 (2 ^ 62)]]);
    [square_matrix | reflexivity].
Defined.


Lemma spin_conversion_is_affine_witness :
  calculate_hamiltonian [2; 0 : Z] [[1; 2]; [3; 4]]
  = Ok (int_value (sum_upto 2 (fun i => sum_upto 2 (fun j =>
      mul (mul (sub (mul two (at1 [2; 0 : Z] i)) one) (at2 [[1; 2]; [3; 4]] i j))
          (sub (mul two (at1 [2; 0 : Z] j)) one)))))
  ∧ (is_binary [2; 0 : Z] →
     calculate_hamiltonian (clamp [2; 0 : Z]) [[1; 2]; [3; 4]]
     = calculate_hamiltonian [2; 0 : Z] [[1; 2]; [3; 4]]).
Proof.
  apply (spin_conversion_is_affine 2 [2; 0 : Z] [[1; 2]; [3; 4]]);
    [square_matrix | reflexivity].
Defined.

(** The values behind the instances above, by evaluation. *)

Example energy_docstring_example :
  calculate_hamiltonian [1; 1; 0; 1]%float (generate_constant_j_matrix 4 3) = Ok 12.
Proof. vm_compute. reflexivity. Qed.

Example sigma_generation_test :
  generate_sigma_f sigma_prev_test sigma_new_test
    = Ok ([0; 1; 1; 0; 0; 1; 1; 0], [1; 0; 0; 1; 1; 0; 0; 1])
  ∧ generate_sigma_c [0; 1; 1; 0; 0; 1; 1; 0] sigma_new_test 8
    = Ok [0; -1; 1; 0; 0; 1; -1; 0]
  ∧ generate_sigma_r [1; 0; 0; 1; 1; 0; 0; 1] sigma_new_test 8
    = Ok [1; 0; 0; 1; -1; 0; 0; -1].
Proof. repeat split. Qed.

Example active_window_test :
  generate_sigma_c [0; 1; 1; 0; 0; 1; 1; 0] sigma_new_test 5
    = Ok [0; -1; 1; 0; 0; 0; 0; 0]
  ∧ generate_sigma_c [0; 1; 1; 0; 0; 1; 1; 0] sigma_new_test 9 = Err IndexError
  ∧ generate_sigma_c [0; 1; 1; 0; 0; 1; 1; 0] sigma_new_test (-3)
    = Ok [0; 0; 0; 0; 0; 0; 0; 0].
Proof. repeat split. Qed.

Example iterative_vs_hamiltonian_test :
  verify_iterative_vs_hamiltonian [1; 1; 1]%float [0; 1; 1]%float
    (generate_constant_j_matrix 3 3) 3 = Ok (true, -24, -24)
  ∧ verify_iterative_vs_hamiltonian [1; 1; 1]%float [0; 1; 1]%float
      (generate_constant_j_matrix 3 3) 2 = Ok (false, -12, -24)
  ∧ verify_iterative_vs_hamiltonian [1; 1; 1]%float [0; 1; 1]%float
      (generate_constant_j_matrix 3 3) 4 = Err IndexError
  ∧ verify_iterative_vs_hamiltonian [1; 1]%float [0; 1]%float
      [[0; 0.1]; [0.2; 0.7]]%float 2 = Ok (false, 0, -1).
Proof. repeat split; vm_compute; reflexivity. Qed.

Example truncation_toward_zero :
  calculate_hamiltonian [1; 1]%float [[-1.5; -0.25]; [0; 0]]%float = Ok (-1).
Proof. vm_compute. reflexivity. Qed.

Example global_flip_symmetry_test :
  verify_global_flip_symmetry J_small = Ok true
  ∧ verify_global_flip_symmetry [[1e308; 1e308]; [1e308; 1e308]]%float
    = Err OverflowError.
Proof. split; vm_compute; reflexivity. Qed.

(** On int64 arrays the products wrap: [4 * 2^62] is 0 modulo [2^64], on
    both paths alike. *)
Example int64_wrap_around :
  calculate_hamiltonian [i64 1; i64 1]
    [[i64 (2 ^ 62); i64 (2 ^ 62)]; [i64 (2 ^ 62); i64 (2 ^ 62)]] = Ok 0
  ∧ energy_from_columns_full (spins [i64 1; i64 1])
      [[i64 (2 ^ 62); i64 (2 ^ 62)]; [i64 (2 ^ 62); i64 (2 ^ 62)]] 2 = Ok 0.
Proof. vm_compute. split; reflexivity. Qed.

(** * Further properties of the code *)

(** ** Helper facts *)

Section MoreFacts.
Context {A : Type} `{DA : Dtype A} `{EA : !ExactDtype A}.
Local Abbreviation matrix := (list (list A)).

Add Ring dtype_ring_more : dtype_ring.

Lemma dot_opp_l (u v : list A) : dot (map opp u) v = opp (dot u v).
Proof.
  revert v. induction u as [|x u IH]; intros v; simpl; [ring|].
  destruct v as [|y v]; [ring|]. rewrite IH. ring.
Qed.

Lemma dot_opp_r (u v : list A) : dot u (map opp v) = opp (dot u v).
Proof.
  revert v. induction u as [|x u IH]; intros v; simpl.
  - destruct v; simpl; ring.
  - destruct v as [|y v]; simpl; [ring|]. rewrite IH. ring.
Qed.

(** The spins of the complemented configuration [1 - sigma] are the
    negated spins. *)
Lemma spins_complement (sigma : list A) :
  spins (map (fun b => sub one b) sigma) = map opp (spins sigma).
Proof.
  unfold spins. rewrite !map_map. apply map_ext. intros b. unfold two. ring.
Qed.

Lemma calculate_hamiltonian_opp_spins (sigma sigma' : list A) (J : matrix) :
  spins sigma' = map opp (spins sigma) →
  calculate_hamiltonian sigma' J = calculate_hamiltonian sigma J.
Proof.
  intros E. unfold calculate_hamiltonian, matmul_vm, matmul_vv. rewrite E.
  rewrite length_map.
  destruct (decide (length (spins sigma) = nrows J)); [|reflexivity].
  cbn [bind]. rewrite !length_map.
  destruct (decide (length (seq 0 (ncols J)) = length (spins sigma))); [|reflexivity].
  cbn [bind]. f_equal. rewrite dot_opp_r.
  rewrite (map_ext (fun j => dot (map opp (spins sigma)) (column j J))
                   (fun j => opp (dot (spins sigma) (column j J))))
    by (intros; apply dot_opp_l).
  rewrite <- (map_map (fun j => dot (spins sigma) (column j J)) opp).
  rewrite dot_opp_l. ring.
Qed.

End MoreFacts.

(** ** Properties over every element type *)

Section MoreProperties.
Context {A : Type} `{DA : Dtype A}.
Local Abbreviation matrix := (list (list A)).

(** X3. [calculate_energy_difference] is antisymmetric in its two
    configurations and adds up along a chain of configurations. *)
Theorem energy_difference_antisymmetric_additive (a b c : list A) (J : matrix) d1 d2 :
  calculate_energy_difference a b J = Ok d1 →
  calculate_energy_difference b c J = Ok d2 →
  calculate_energy_difference b a J = Ok (- d1)
  ∧ calculate_energy_difference a c J = Ok (d1 + d2)
  ∧ calculate_energy_difference a a J = Ok 0.
Proof.
  unfold calculate_energy_difference.
  destruct (calculate_hamiltonian a J) as [ea|]; [|discriminate].
  destruct (calculate_hamiltonian b J) as [eb|]; [|discriminate].
  destruct (calculate_hamiltonian c J) as [ec|]; [|discriminate].
  cbn [bind]. intros E1 E2. injection E1 as <-. injection E2 as <-.
  repeat split; f_equal; lia.
Qed.

(** X6. [energy_from_columns_full] on a square [J] of size [n] and a
    vector of length [n]: for [vector_size <= n] it returns [int] of the sum
    over the first [vector_size] columns of
    [s[col] * (sum over the first vector_size rows of s[row] * J[col, row])],
    accumulated in loop order (so [int(0)] for [vector_size <= 0]), and
    raises what [int] raises; past [n] it raises [IndexError]. *)
Theorem energy_from_columns_full_bounds n (s : list A) (J : matrix) (vector_size : Z) :
  is_square n J → length s = n →
  (vector_size ≤ Z.of_nat n →
   energy_from_columns_full s J vector_size
   = to_int (sum_upto (Z.to_nat vector_size) (fun col =>
       mul (at1 s col)
           (sum_upto (Z.to_nat vector_size)
              (fun row => mul (at1 s row) (at2 J col row))))))
  ∧ (vector_size ≤ 0 → energy_from_columns_full s J vector_size = to_int zero)
  ∧ (Z.of_nat n < vector_size →
     energy_from_columns_full s J vector_size = Err IndexError).
Proof.
  intros HJ Hs. split; [|split].
  - intros Hvs. apply (energy_from_columns_full_value n); assumption.
  - intros Hvs. unfold energy_from_columns_full, range.
    replace (Z.to_nat vector_size) with 0%nat by lia. reflexivity.
  - intros Hvs. apply (energy_from_columns_full_out n); assumption.
Qed.

End MoreProperties.

(** ** Properties of arrays with exact arithmetic *)

Section MoreExactProperties.
Context {A : Type} `{DA : Dtype A} `{EA : !ExactDtype A}.
Local Abbreviation matrix := (list (list A)).

(** X1. On arrays with exact arithmetic (int64 with its wrap-around,
    Python integers), inverting every bit of a configuration ([1 - sigma])
    leaves the result of [calculate_hamiltonian] unchanged, for every
    configuration and every [J], the raised exception included. *)
Theorem hamiltonian_invariant_under_inversion (sigma : list A) (J : matrix) :
  calculate_hamiltonian (map (fun b => sub one b) sigma) J
  = calculate_hamiltonian sigma J.
Proof. apply calculate_hamiltonian_opp_spins, spins_complement. Qed.

(** X4. On arrays with exact arithmetic, the hardware accumulation
    [calculate_expected_output], given the
    spin vector of one configuration as both row and column encoding and
    the full size for both bounds, returns what [calculate_hamiltonian]
    returns for that configuration. *)
Theorem expected_output_full_is_hamiltonian n (sigma : list A) (J : matrix) :
  length sigma = n → is_square n J →
  calculate_expected_output (spins sigma) (spins sigma) J (Z.of_nat n) (Z.of_nat n)
  = calculate_hamiltonian sigma J.
Proof.
  intros Hs HJ.
  rewrite (calculate_expected_output_full n) by (rewrite ?length_spins; assumption).
  rewrite (energy_from_columns_full_bilinear n) by (rewrite ?length_spins; assumption).
  rewrite (calculate_hamiltonian_bilinear n) by assumption. reflexivity.
Qed.

(** X5. On arrays with exact arithmetic, at the full size the consistency
    check always passes:
    [verify_iterative_vs_hamiltonian] returns [(True, d, d)] with [d] the
    energy difference; with [vector_size] past the length it raises
    [IndexError]. *)
Theorem verify_iterative_full_size_matches n (sigma_old sigma_new : list A)
    (J : matrix) (vector_size : Z) :
  length sigma_old = n → length sigma_new = n → is_square n J →
  (∃ d, calculate_energy_difference sigma_old sigma_new J = Ok d
        ∧ verify_iterative_vs_hamiltonian sigma_old sigma_new J (Z.of_nat n)
          = Ok (true, d, d))
  ∧ (Z.of_nat n < vector_size →
     verify_iterative_vs_hamiltonian sigma_old sigma_new J vector_size
     = Err IndexError).
Proof.
  intros Ho Hn HJ. split.
  - unfold verify_iterative_vs_hamiltonian, calculate_energy_difference.
    rewrite !(energy_from_columns_full_bilinear n) by (rewrite ?length_spins; assumption).
    rewrite !(calculate_hamiltonian_bilinear n) by assumption.
    cbn [bind]. rewrite Z.eqb_refl. eexists. split; reflexivity.
  - intros Hvs. apply (verify_iterative_vs_hamiltonian_out n); assumption.
Qed.

End MoreExactProperties.

(** ** Bounds and the active window *)

Section WindowFacts.
Context {A : Type} `{DA : Dtype A}.
Local Abbreviation matrix := (list (list A)).

(** Where [calculate_expected_output] raises: in the row loop of its first
    column when [vector_size] is past the length, and at column [n] when
    [col_per_cc] is. *)
Lemma calculate_expected_output_out n (sr sc : list A) (J : matrix)
    col_per_cc vector_size :
  is_square n J → length sr = n → length sc = n →
  (0 < col_per_cc ∧ Z.of_nat n < vector_size) ∨ Z.of_nat n < col_per_cc →
  calculate_expected_output sr sc J col_per_cc vector_size = Err IndexError.
Proof.
  intros HJ Hr Hc Hout. unfold calculate_expected_output, range.
  destruct (Z_lt_le_dec (Z.of_nat n) vector_size) as [Hvs|Hvs].
  - (* the row loop of column 0 reads [sr[n]] *)
    rewrite (for_loop_raises (fun _ _ => True) (Z.to_nat col_per_cc) 0 _ zero IndexError).
    + reflexivity.
    + lia.
    + exact I.
    + intros i acc Hi. lia.
    + intros acc _.
      rewrite (for_loop_raises (fun _ _ => True) (Z.to_nat vector_size) n _ zero IndexError).
      * reflexivity.
      * lia.
      * exact I.
      * intros row acc' Hrow _. rewrite getitem_at1 by lia. cbn [bind].
        rewrite (getitem2_at2 n) by (assumption || lia).
        eexists. split; [reflexivity | exact I].
      * intros acc' _. rewrite getitem_out by lia. reflexivity.
  - (* column [n] is outside [J] and [sc] *)
    rewrite (for_loop_raises (fun _ _ => True) (Z.to_nat col_per_cc) n _ zero IndexError).
    + reflexivity.
    + lia.
    + exact I.
    + intros col acc Hcol _.
      rewrite (inner_loop_sum n) by (assumption || lia). cbn [bind].
      rewrite getitem_at1 by lia. eexists. split; [reflexivity | exact I].
    + intros acc _. destruct (Z.to_nat vector_size) as [|k] eqn:Ek.
      * cbn [seq for_loop bind]. rewrite getitem_out by lia. reflexivity.
      * rewrite (for_loop_raises (fun _ _ => True) (S k) 0 _ zero IndexError).
        -- reflexivity.
        -- lia.
        -- exact I.
        -- intros i acc' Hi. lia.
        -- intros acc' _. rewrite getitem_at1 by lia. cbn [bind].
           unfold getitem2. rewrite getitem_out by (destruct HJ; lia). reflexivity.
Qed.

Lemma at1_take (s : list A) k i : (i < k)%nat → at1 (take k s) i = at1 s i.
Proof. intros Hi. unfold at1. rewrite lookup_take_lt by exact Hi. reflexivity. Qed.

Lemma at2_block (J : matrix) k i j :
  (i < k)%nat → (j < k)%nat → at2 (map (take k) (take k J)) i j = at2 J i j.
Proof.
  intros Hi Hj. unfold at2.
  rewrite list_lookup_fmap, lookup_take_lt by exact Hi.
  destruct (J !! i) as [r|]; [|reflexivity]. simpl.
  rewrite lookup_take_lt by exact Hj. reflexivity.
Qed.

Lemma is_square_block n (J : matrix) k :
  is_square n J → (k ≤ n)%nat → is_square k (map (take k) (take k J)).
Proof.
  intros [Hl HF] Hk. split.
  - rewrite length_map, length_take_le by lia. reflexivity.
  - rewrite Forall_fmap. apply Forall_take.
    eapply Forall_impl; [exact HF|]. simpl. intros r Hr.
    rewrite length_take_le by lia. reflexivity.
Qed.

End WindowFacts.

Section WindowProperties.
Context {A : Type} `{DA : Dtype A}.
Local Abbreviation matrix := (list (list A)).

(** X7. [calculate_expected_output] on a square [J] of size [n] with
    encodings of length [n]: with both bounds at most [n] it returns [int]
    of the sum over the first [col_per_cc] columns of [sigma_c[col]] times
    the sum over the first [vector_size] rows of [sigma_r[row] * J[col, row]],
    accumulated in loop order, and raises what [int] raises; with
    [col_per_cc <= 0] it returns [int(0)] whatever [vector_size] is; and it
    raises [IndexError] when [col_per_cc] is past [n], or when
    [vector_size] is past [n] and at least one column is processed. *)
Theorem calculate_expected_output_bounds n (sr sc : list A) (J : matrix)
    (col_per_cc vector_size : Z) :
  is_square n J → length sr = n → length sc = n →
  (col_per_cc ≤ Z.of_nat n → vector_size ≤ Z.of_nat n →
   calculate_expected_output sr sc J col_per_cc vector_size
   = to_int (sum_upto (Z.to_nat col_per_cc) (fun col =>
       mul (at1 sc col)
           (sum_upto (Z.to_nat vector_size)
              (fun row => mul (at1 sr row) (at2 J col row))))))
  ∧ (col_per_cc ≤ 0 →
     calculate_expected_output sr sc J col_per_cc vector_size = to_int zero)
  ∧ ((0 < col_per_cc ∧ Z.of_nat n < vector_size) ∨ Z.of_nat n < col_per_cc →
     calculate_expected_output sr sc J col_per_cc vector_size = Err IndexError).
Proof.
  intros HJ Hr Hc. split; [|split].
  - intros Hcc Hvs. apply (calculate_expected_output_value n); assumption.
  - intros Hcc. unfold calculate_expected_output, range.
    replace (Z.to_nat col_per_cc) with 0%nat by lia. reflexivity.
  - intros Hout. apply (calculate_expected_output_out n); assumption.
Qed.

End WindowProperties.

Section ExactWindowProperties.
Context {A : Type} `{DA : Dtype A} `{EA : !ExactDtype A}.
Local Abbreviation matrix := (list (list A)).

(** X8. On arrays with exact arithmetic the active window is a
    truncation: for [vector_size] at most the
    length, [energy_from_columns_full] on the spins of [sigma] returns what
    [calculate_hamiltonian] returns on the first [vector_size] elements of
    [sigma] and the leading [vector_size] x [vector_size] block of [J]. *)
Theorem active_window_is_truncation n (sigma : list A) (J : matrix) (vector_size : Z) :
  is_square n J → length sigma = n → vector_size ≤ Z.of_nat n →
  energy_from_columns_full (spins sigma) J vector_size
  = calculate_hamiltonian (take (Z.to_nat vector_size) sigma)
      (map (take (Z.to_nat vector_size)) (take (Z.to_nat vector_size) J)).
Proof.
  intros HJ Hs Hvs. set (k := Z.to_nat vector_size).
  assert (Hk : (k ≤ n)%nat) by lia.
  rewrite (energy_from_columns_full_value n) by (rewrite ?length_spins; assumption).
  fold k. rewrite columns_sum_bilinear, to_int_exact.
  rewrite (calculate_hamiltonian_bilinear k)
    by (try apply (is_square_block n); try rewrite length_take_le; (assumption || lia)).
  do 2 f_equal. unfold bilinear, spins.
  apply sum_upto_ext. intros i Hi. apply sum_upto_ext. intros j Hj.
  rewrite fmap_take. rewrite !at1_take, at2_block by assumption. reflexivity.
Qed.

End ExactWindowProperties.

(** ** The flip mask and the ternary encodings *)

Section EncodingProperties.
Context {A : Type} `{DA : Dtype A}.

Lemma xor_mask_comm (a b : list A) :
  zip_with (fun x y : A => xorb (nonzero x) (nonzero y)) a b
  = zip_with (fun x y : A => xorb (nonzero x) (nonzero y)) b a.
Proof.
  revert b. induction a as [|x a IH]; intros [|y b]; simpl; try reflexivity.
  rewrite IH, xorb_comm. reflexivity.
Qed.

Lemma xor_mask_self (a : list A) :
  zip_with (fun x y : A => xorb (nonzero x) (nonzero y)) a a
  = replicate (length a) false.
Proof.
  induction a as [|x a IH]; simpl; [reflexivity|].
  rewrite IH, xorb_nilpotent. reflexivity.
Qed.

Lemma np_logical_xor_comm (a b : list A) :
  np_logical_xor a b = np_logical_xor b a.
Proof.
  unfold np_logical_xor, broadcast2.
  destruct (decide (length a = length b)) as [E|E].
  - rewrite decide_True by congruence. rewrite xor_mask_comm. reflexivity.
  - rewrite decide_False by congruence.
    destruct a as [|x [|x' a]], b as [|y [|y' b]]; simpl in E;
      try congruence; lazy iota beta;
      try reflexivity;
      f_equal; apply map_ext; intros z; apply xorb_comm.
Qed.

(** X9. For a mask and a configuration of the same length [n],
    [generate_sigma_c] (and [generate_sigma_r], which runs the same loop)
    returns for [vector_size <= n] a vector of length [n] whose entries are
    -1, 0 or +1: 0 outside the active window and where the mask is 0, and
    otherwise the sign of the configuration's element (+1 when it is
    nonzero, -1 when it is zero). Past [n] it raises [IndexError]. *)
Theorem generate_sigma_c_ternary n (mask : list Z) (sigma_new : list A)
    (vector_size : Z) :
  length mask = n → length sigma_new = n →
  generate_sigma_r mask sigma_new vector_size
  = generate_sigma_c mask sigma_new vector_size
  ∧ (vector_size ≤ Z.of_nat n →
     ∃ sigma_c,
       generate_sigma_c mask sigma_new vector_size = Ok sigma_c ∧
       length sigma_c = n ∧
       ∀ i c, sigma_c !! i = Some c →
         (c = -1 ∨ c = 0 ∨ c = 1) ∧
         (vector_size ≤ Z.of_nat i → c = 0) ∧
         (at1 mask i = 0 → c = 0) ∧
         (Z.of_nat i < vector_size → at1 mask i ≠ 0 →
          c = if nonzero (at1 sigma_new i) then 1 else -1))
  ∧ (Z.of_nat n < vector_size →
     generate_sigma_c mask sigma_new vector_size = Err IndexError).
Proof.
  intros Hm Hs. split; [reflexivity|]. split.
  - intros Hvs.
    destruct (generate_sigma_c_encoded n mask sigma_new vector_size Hm Hs Hvs)
      as (sc & E & Hlen & Hsc).
    exists sc. split; [exact E|]. split; [exact Hlen|].
    intros i c Hc.
    assert (Hi : (i < n)%nat) by (rewrite <- Hlen; eapply lookup_lt_Some; exact Hc).
    rewrite (Hsc i Hi) in Hc. injection Hc as <-. unfold encoded.
    destruct (decide (i < Z.to_nat vector_size)%nat) as [Hw|Hw].
    + destruct (nonzero (at1 mask i)) eqn:Hnz.
      * repeat split.
        -- destruct (nonzero (at1 sigma_new i)); auto.
        -- intros Hge. lia.
        -- intros Hz. rewrite Hz in Hnz. discriminate Hnz.
      * repeat split; auto.
        intros _ Hne. cbn [nonzero int_dtype] in Hnz.
        destruct (Z.eqb_spec (at1 mask i) 0) as [Hz|Hz]; [destruct (Hne Hz) | discriminate Hnz].
    + repeat split; auto. intros Hlt. lia.
  - intros Hvs. apply (generate_sigma_c_out n); assumption.
Qed.

(** X10. [generate_sigma_f] raises [ValueError] when the two lengths differ
    and neither is 1; it does not depend on the order of its two arguments;
    and on twice the same configuration the flip mask is all 0 and its
    complement all 1. *)
Theorem generate_sigma_f_shape_and_symmetry (a b : list A) :
  (length a ≠ length b → length a ≠ 1%nat → length b ≠ 1%nat →
   generate_sigma_f a b = Err ValueError)
  ∧ generate_sigma_f a b = generate_sigma_f b a
  ∧ generate_sigma_f a a
    = Ok (replicate (length a) 0, replicate (length a) 1).
Proof.
  split; [|split].
  - intros Hne Ha Hb. unfold generate_sigma_f, np_logical_xor, broadcast2.
    rewrite decide_False by exact Hne.
    destruct a as [|x [|x' a]], b as [|y [|y' b]]; simpl in *;
      try reflexivity; congruence.
  - unfold generate_sigma_f. rewrite np_logical_xor_comm. reflexivity.
  - unfold generate_sigma_f, np_logical_xor, broadcast2.
    rewrite decide_True by reflexivity. cbn [bind]. rewrite xor_mask_self.
    unfold astype_int, np_logical_not. rewrite !fmap_replicate. reflexivity.
Qed.

End EncodingProperties.

(** ** Properties of the integer encodings *)

Lemma binary_spin_int (sigma : list Z) i :
  is_binary sigma → (i < length sigma)%nat →
  at1 (spins sigma) i = -1 ∨ at1 (spins sigma) i = 1.
Proof.
  intros Hb Hi. rewrite at1_spins by exact Hi.
  destruct (is_binary_at1 sigma i Hb Hi) as [-> | ->]; [left | right]; reflexivity.
Qed.

(** The two encodings of a flip pair, entry by entry: their sum is the new
    spin and their difference the old spin. *)
Lemma encodings_pointwise n (sigma_old sigma_new : list Z) :
  is_binary sigma_old → is_binary sigma_new →
  length sigma_old = n → length sigma_new = n →
  ∃ sigma_f sigma_f_inv sigma_c sigma_r,
    generate_sigma_f sigma_old sigma_new = Ok (sigma_f, sigma_f_inv) ∧
    generate_sigma_c sigma_f sigma_new (Z.of_nat n) = Ok sigma_c ∧
    generate_sigma_r sigma_f_inv sigma_new (Z.of_nat n) = Ok sigma_r ∧
    length sigma_c = n ∧ length sigma_r = n ∧
    ∀ i, (i < n)%nat →
      at1 (spins sigma_new) i = at1 sigma_r i + at1 sigma_c i ∧
      at1 (spins sigma_old) i = at1 sigma_r i - at1 sigma_c i.
Proof.
  intros Bo Bn Ho Hn.
  destruct (generate_sigma_f_lookup n sigma_old sigma_new Ho Hn)
    as (sf & sfi & Ef & Lf & Lfi & Hf).
  destruct (generate_sigma_c_encoded n sf sigma_new (Z.of_nat n) Lf Hn ltac:(lia))
    as (sc & Ec & Lc & Hc).
  destruct (generate_sigma_c_encoded n sfi sigma_new (Z.of_nat n) Lfi Hn ltac:(lia))
    as (sr & Er & Lr & Hr).
  rewrite Nat2Z.id in Hc, Hr.
  exists sf, sfi, sc, sr.
  split; [exact Ef|]. split; [exact Ec|]. split; [exact Er|].
  split; [exact Lc|]. split; [exact Lr|].
  intros i Hi. destruct (Hf i Hi) as [E1 E2].
  rewrite (at1_lookup _ _ _ (Hc i Hi)), (at1_lookup _ _ _ (Hr i Hi)).
  unfold encoded. rewrite !decide_True by exact Hi.
  rewrite (at1_lookup _ _ _ E1), (at1_lookup _ _ _ E2), !nonzero_b2z.
  rewrite !at1_spins by lia. unfold flipped.
  destruct (is_binary_at1 sigma_old i Bo ltac:(lia)) as [-> | ->],
           (is_binary_at1 sigma_new i Bn ltac:(lia)) as [-> | ->];
    split; reflexivity.
Qed.

(** X14. For binary configurations and the full size, the two encodings
    split the spin vectors: entry by entry [sigma_r + sigma_c] is the spin
    vector of the new configuration and [sigma_r - sigma_c] that of the
    old one. *)
Theorem encodings_split_spin_vectors n (sigma_old sigma_new : list Z) :
  is_binary sigma_old → is_binary sigma_new →
  length sigma_old = n → length sigma_new = n →
  ∃ sigma_f sigma_f_inv sigma_c sigma_r,
    generate_sigma_f sigma_old sigma_new = Ok (sigma_f, sigma_f_inv) ∧
    generate_sigma_c sigma_f sigma_new (Z.of_nat n) = Ok sigma_c ∧
    generate_sigma_r sigma_f_inv sigma_new (Z.of_nat n) = Ok sigma_r ∧
    zip_with Z.add sigma_r sigma_c = spins sigma_new ∧
    zip_with Z.sub sigma_r sigma_c = spins sigma_old.
Proof.
  intros Bo Bn Ho Hn.
  destruct (encodings_pointwise n sigma_old sigma_new Bo Bn Ho Hn)
    as (sf & sfi & sc & sr & Ef & Ec & Er & Lc & Lr & Hpt).
  exists sf, sfi, sc, sr.
  split; [exact Ef|]. split; [exact Ec|]. split; [exact Er|].
  split; apply list_eq; intros i; rewrite lookup_zip_with;
    (destruct (decide (i < n)%nat) as [Hi|Hi];
     [ rewrite (lookup_at1 sr i), (lookup_at1 sc i) by lia;
       rewrite (lookup_at1 (spins _) i) by (rewrite length_spins; lia);
       destruct (Hpt i Hi) as [H1 H2]; simpl; f_equal; congruence
     | rewrite (lookup_ge_None_2 sr) by lia;
       rewrite (lookup_ge_None_2 (spins _)) by (rewrite length_spins; lia);
       reflexivity ]).
Qed.

(** ** The two accumulations compared *)

Section AccumulationProperties.
Context {A : Type} `{DA : Dtype A}.
Local Abbreviation matrix := (list (list A)).

(** X16. [energy_from_columns_full] is [calculate_expected_output] with the
    spin vector as both encodings and [vector_size] as both bounds: for a
    square [J] and a vector of its size the two return the same, for every
    [vector_size], the [IndexError] past the size included. *)
Theorem energy_from_columns_is_expected_output n (s : list A) (J : matrix)
    (vector_size : Z) :
  is_square n J → length s = n →
  energy_from_columns_full s J vector_size
  = calculate_expected_output s s J vector_size vector_size.
Proof.
  intros HJ Hs. destruct (Z_le_gt_dec vector_size (Z.of_nat n)) as [Hvs|Hvs].
  - rewrite (energy_from_columns_full_value n) by assumption.
    rewrite (calculate_expected_output_value n) by assumption. reflexivity.
  - rewrite (energy_from_columns_full_out n) by (assumption || lia).
    rewrite (calculate_expected_output_out n) by (assumption || (right; lia)).
    reflexivity.
Qed.

End AccumulationProperties.

(** ** Concrete instances of the further properties *)

Lemma energy_difference_antisymmetric_additive_witness :
  calculate_energy_difference [0; 1; 1 : Z] [1; 1; 1] [[1; 2; 3]; [2; 4; 5]; [3; 5; 6]]
  = Ok (- -20)
  ∧ calculate_energy_difference [1; 1; 1 : Z] [0; 0; 1] [[1; 2; 3]; [2; 4; 5]; [3; 5; 6]]
    = Ok (-20 + -12)
  ∧ calculate_energy_difference [1; 1; 1 : Z] [1; 1; 1] [[1; 2; 3]; [2; 4; 5]; [3; 5; 6]]
    = Ok 0.
Proof.
  apply (energy_difference_antisymmetric_additive
           [1; 1; 1 : Z] [0; 1; 1] [0; 0; 1] [[1; 2; 3]; [2; 4; 5]; [3; 5; 6]]);
    reflexivity.
Defined.

Lemma expected_output_full_is_hamiltonian_witness :
  calculate_expected_output (spins [i64 1; i64 0]) (spins [i64 1; i64 0])
    [[i64 (2 ^ 62); i64 3]; [i64 (-5); i64 7]] (Z.of_nat 2) (Z.of_nat 2)
  = calculate_hamiltonian [i64 1; i64 0] [[i64 (2 ^ 62); i64 3]; [i64 (-5); i64 7]].
Proof.
  apply (expected_output_full_is_hamiltonian 2 [i64 1; i64 0]
           [[i64 (2 ^ 62); i64 3]; [i64 (-5); i64 7]]);
    [reflexivity | square_matrix].
Defined.

Lemma verify_iterative_full_size_matches_witness :
  (∃ d, calculate_energy_difference [i64 1; i64 1] [i64 0; i64 1]
          [[i64 (2 ^ 62); i64 3]; [i64 (-5); i64 7]] = Ok d
        ∧ verify_iterative_vs_hamiltonian [i64 1; i64 1] [i64 0; i64 1]
            [[i64 (2 ^ 62); i64 3]; [i64 (-5); i64 7]] (Z.of_nat 2) = Ok (true, d, d))
  ∧ (Z.of_nat 2 < 3 →
     verify_iterative_vs_hamiltonian [i64 1; i64 1] [i64 0; i64 1]
       [[i64 (2 ^ 62); i64 3]; [i64 (-5); i64 7]] 3 = Err IndexError).
Proof.
  apply (verify_iterative_full_size_matches 2 [i64 1; i64 1] [i64 0; i64 1]
           [[i64 (2 ^ 62); i64 3]; [i64 (-5); i64 7]] 3);
    [reflexivity | reflexivity | square_matrix].
Defined.

Lemma energy_from_columns_full_bounds_witness :
  energy_from_columns_full (spins [1; 1]%float) [[0; 0.1]; [0.2; 0.7]]%float 2
  = to_int (sum_upto (Z.to_nat 2) (fun col =>
      mul (at1 (spins [1; 1]%float) col)
          (sum_upto (Z.to_nat 2)
             (fun row => mul (at1 (spins [1; 1]%float) row)
                             (at2 [[0; 0.1]; [0.2; 0.7]]%float col row))))).
Proof.
  apply (proj1 (energy_from_columns_full_bounds 2 (spins [1; 1]%float)
                  [[0; 0.1]; [0.2; 0.7]]%float 2 ltac:(square_matrix) eq_refl)).
  discriminate.
Defined.

Lemma calculate_expected_output_bounds_witness :
  calculate_expected_output [1; 0; 0; 1; -1; 0; 0; -1]%float
    [0; -1; 1; 0; 0; 1; -1; 0]%float J_small 9 8 = Err IndexError.
Proof.
  apply (calculate_expected_output_bounds 8
           [1; 0; 0; 1; -1; 0; 0; -1]%float [0; -1; 1; 0; 0; 1; -1; 0]%float
           J_small 9 8);
    [square_matrix | reflexivity | reflexivity | right; reflexivity].
Defined.

Lemma active_window_is_truncation_witness :
  energy_from_columns_full (spins [i64 1; i64 0; i64 1])
    [[i64 1; i64 2; i64 3]; [i64 4; i64 5; i64 6]; [i64 7; i64 8; i64 9]] 2
  = calculate_hamiltonian (take (Z.to_nat 2) [i64 1; i64 0; i64 1])
      (map (take (Z.to_nat 2))
         (take (Z.to_nat 2)
            [[i64 1; i64 2; i64 3]; [i64 4; i64 5; i64 6]; [i64 7; i64 8; i64 9]])).
Proof.
  apply (active_window_is_truncation 3 [i64 1; i64 0; i64 1]
           [[i64 1; i64 2; i64 3]; [i64 4; i64 5; i64 6]; [i64 7; i64 8; i64 9]] 2);
    [square_matrix | reflexivity | discriminate].
Defined.

Lemma generate_sigma_c_ternary_witness :
  generate_sigma_c [0; 1; 1; 0; 0; 1; 1; 0] sigma_new_test 9 = Err IndexError.
Proof.
  apply (generate_sigma_c_ternary 8 [0; 1; 1; 0; 0; 1; 1; 0] sigma_new_test 9);
    reflexivity.
Defined.

Lemma generate_sigma_f_shape_and_symmetry_witness :
  generate_sigma_f [1; 0; 1 : Z] [1; 0 : Z] = Err ValueError.
Proof.
  apply (proj1 (generate_sigma_f_shape_and_symmetry [1; 0; 1 : Z] [1; 0 : Z]));
    discriminate.
Defined.

Lemma encodings_split_spin_vectors_witness :
  ∃ sigma_f sigma_f_inv sigma_c sigma_r,
    generate_sigma_f sigma_prev_test sigma_new_test = Ok (sigma_f, sigma_f_inv) ∧
    generate_sigma_c sigma_f sigma_new_test (Z.of_nat 8) = Ok sigma_c ∧
    generate_sigma_r sigma_f_inv sigma_new_test (Z.of_nat 8) = Ok sigma_r ∧
    zip_with Z.add sigma_r sigma_c = spins sigma_new_test ∧
    zip_with Z.sub sigma_r sigma_c = spins sigma_prev_test.
Proof.
  apply (encodings_split_spin_vectors 8 sigma_prev_test sigma_new_test);
    [binary_config | binary_config | reflexivity | reflexivity].
Defined.

Lemma energy_from_columns_is_expected_output_witness :
  energy_from_columns_full (spins [1; 1]%float) [[0; 0.1]; [0.2; 0.7]]%float 2
  = calculate_expected_output (spins [1; 1]%float) (spins [1; 1]%float)
      [[0; 0.1]; [0.2; 0.7]]%float 2 2.
Proof.
  apply (energy_from_columns_is_expected_output 2 (spins [1; 1]%float)
           [[0; 0.1]; [0.2; 0.7]]%float 2);
    [square_matrix | reflexivity].
Defined.
